(** * pick-for-me: the spin wheel and the option editor

    A shallow embedding of the rotation/index arithmetic and of the state
    transitions of [SpinWheel] (spin, settle, reorder sync, history
    highlight) and of the list mutations of [OptionEditor] (addOption,
    removeOption, saveEdit), followed by the helpers that draw the wheel
    (slice colours, labels, share sentences), by the functions of [App] that
    own the list (undo, decision history, scene names, recent presets,
    relative times) and by [applyPreset].

    Angles are JavaScript numbers in the source.  They are modelled here as
    exact rationals ([Q]): the specification treats the accumulated angle as
    an unbounded real number, and the angles of the concrete runs evaluated
    below are values that IEEE doubles represent exactly.  Indices and lengths
    are integers ([Z]).  Strings are sequences of UTF-16 code units.

    Exact angles decide nothing where rounding decides: the inverse mapping
    and the reorder adjustment are therefore also given over IEEE doubles,
    in [Double], and the reorder adjustment is evaluated there at a slice
    boundary. *)

From Stdlib Require Import ZArith QArith Qround List Bool Lia Lqa.
From Stdlib Require Import String Ascii Permutation DecimalString.
From Stdlib Require Import PrimFloat SpecFloat FloatOps.
Import ListNotations.

Local Open Scope Z_scope.
Local Open Scope Q_scope.

(** ** JavaScript numbers and strings *)

Module JS.

(** A string is a sequence of UTF-16 code units. *)
Definition jsstring := list N.

(** Code units of an ASCII literal. *)
Definition str (s : string) : jsstring :=
  map N_of_ascii (list_ascii_of_string s).

Definition jsstring_eqb (a b : jsstring) : bool :=
  if list_eq_dec N.eq_dec a b then true else false.

Definition jsstring_list_eqb (a b : list jsstring) : bool :=
  if list_eq_dec (list_eq_dec N.eq_dec) a b then true else false.

(** Truncation toward zero of a rational. *)
Definition Qtrunc (x : Q) : Z := Z.quot (Qnum x) (Zpos (Qden x)).

(** [a % b] on numbers: the remainder takes the sign of the dividend. *)
Definition rem (a b : Q) : Q := a - b * inject_Z (Qtrunc (a / b)).

(** [Math.floor]. *)
Definition floor (x : Q) : Z := Qfloor x.

(** [arr[i]]: [None] stands for [undefined]. *)
Definition index {A} (l : list A) (i : Z) : option A :=
  if (i <? 0)%Z then None else nth_error l (Z.to_nat i).

(** [arr.length]. *)
Definition length {A} (l : list A) : Z := Z.of_nat (List.length l).

(** [arr.indexOf(x)], with [-1] when [x] does not occur. *)
Fixpoint indexOf_from (l : list jsstring) (x : jsstring) (i : Z) : Z :=
  match l with
  | [] => (-1)%Z
  | y :: l' => if jsstring_eqb y x then i else indexOf_from l' x (i + 1)%Z
  end.

Definition indexOf (l : list jsstring) (x : jsstring) : Z := indexOf_from l x 0%Z.

(** [arr.includes(x)]. *)
Definition includes (l : list jsstring) (x : jsstring) : bool :=
  existsb (fun y => jsstring_eqb y x) l.

(** White space and line terminators removed by [String.prototype.trim]. *)
Definition is_whitespace (c : N) : bool :=
  ((9 <=? c) && (c <=? 13) || (c =? 32) || (c =? 160) || (c =? 5760)
   || (8192 <=? c) && (c <=? 8202) || (c =? 8232) || (c =? 8233)
   || (c =? 8239) || (c =? 8287) || (c =? 12288) || (c =? 65279))%N.

Fixpoint trimStart (s : jsstring) : jsstring :=
  match s with
  | c :: s' => if is_whitespace c then trimStart s' else s
  | [] => []
  end.

Definition trim (s : jsstring) : jsstring :=
  rev (trimStart (rev (trimStart s))).

End JS.

(** ** SpinWheel *)

Module SpinWheel.

Import JS.

(** The [historyHighlight] prop. *)
Record HistoryHighlight := mkHighlight {
  hh_options : list jsstring;
  hh_index : Z;
  hh_requestId : Z
}.

(** Props read by the engine.  [onSpinStart] is optional in the source; the
    flag records whether the parent passed it.  [onResult] is mandatory. *)
Record Props := mkProps {
  options : list jsstring;
  onSpinStart : bool;
  historyHighlight : option HistoryHighlight
}.

(** Component state ([useState]) and the refs the effects use ([useRef]). *)
Record State := mkState {
  isSpinning : bool;
  selectedIndex : option Z;
  rotation : Q;
  prefersReducedMotion : bool;
  prevOptionsRef : list jsstring;
  prevRotationRef : Q;
  lastHistoryRequestIdRef : option Z
}.

(** Calls that leave the component, in program order. *)
Inductive Event :=
| SpinStartCalled
| AnimationStarted (target duration : Q)
| RotateSet (angle : Q)
| ResultCalled (result : option jsstring) (index : Z).

(** The callback that [spin] hands to [setTimeout].  It closes over the
    terminal angle and over the [options] of the render that called [spin]. *)
Record Timer := mkTimer {
  t_delay : Q;
  t_totalRotation : Q;
  t_options : list jsstring
}.

(** Initial state of a mounted wheel. *)
Definition init (p : Props) : State :=
  mkState false None 0 false (options p) 0 None.

(** [calculateIndexFromRotation]; [n] is the [options.length] the callback
    closes over. *)
Definition calculateIndexFromRotation (n : Z) (totalRotation : Q) : Z :=
  if (n <=? 0)%Z then 0%Z
  else
    let sliceAngle := 360 / inject_Z n in
    let index := floor (rem (360 - rem totalRotation 360) 360 / sliceAngle) in
    Z.rem index n.

(** The target rotation computed for a target index (used by [spin] and by
    the history highlight effect). *)
Definition targetRotationOf (n targetIndex : Z) : Q :=
  let sliceAngle := 360 / inject_Z n in
  rem (90 - inject_Z targetIndex * sliceAngle - sliceAngle / 2 + 360) 360.

(** The three [Math.random()] draws of one [spin] call, in call order. *)
Record Draws := mkDraws {
  u_index : Q;
  u_spins : Q;
  u_jitter : Q
}.

Definition unit_interval (u : Q) : Prop := 0 <= u /\ u < 1.

Definition targetIndexOf (opts : list jsstring) (d : Draws) : Z :=
  floor (u_index d * inject_Z (JS.length opts)).

Definition spinsOf (reduced : bool) (d : Draws) : Q :=
  if reduced then 4 + u_spins d * (3 # 2) else 5 + u_spins d * 2.

Definition deltaRotationOf (targetRotation rotation : Q) : Q :=
  let currentRotationMod := rem rotation 360 in
  rem (targetRotation - currentRotationMod + 360) 360.

Definition totalRotationOf (p : Props) (st : State) (d : Draws) : Q :=
  let targetRotation := targetRotationOf (JS.length (options p)) (targetIndexOf (options p) d) in
  rotation st + spinsOf (prefersReducedMotion st) d * 360
  + deltaRotationOf targetRotation (rotation st).

Definition animationDurationOf (reduced : bool) (d : Draws) : Q :=
  let baseDuration := if reduced then 24 # 10 else 33 # 10 in
  let jitter := if reduced then 3 # 10 else 1 # 2 in
  baseDuration + u_jitter d * jitter.

(** [spin]: the new state, the calls made synchronously, and the timer that
    was scheduled (if any). *)
Definition spin (p : Props) (st : State) (d : Draws)
  : State * list Event * option Timer :=
  if isSpinning st then (st, [], None)
  else if (JS.length (options p) <? 2)%Z then (st, [], None)
  else
    let started := if onSpinStart p then [SpinStartCalled] else [] in
    let totalRotation := totalRotationOf p st d in
    let animationDuration := animationDurationOf (prefersReducedMotion st) d in
    (mkState true None (rotation st) (prefersReducedMotion st)
       (prevOptionsRef st) (prevRotationRef st) (lastHistoryRequestIdRef st),
     started ++ [AnimationStarted totalRotation animationDuration],
     Some (mkTimer (animationDuration * 1000) totalRotation (options p))).

(** The timer callback of [spin], run when the animation has finished. *)
Definition settle (t : Timer) (st : State) : State * list Event :=
  let totalRotation := t_totalRotation t in
  let calculatedIndex :=
    calculateIndexFromRotation (JS.length (t_options t)) totalRotation in
  (mkState false (Some calculatedIndex) totalRotation (prefersReducedMotion st)
     (prevOptionsRef st) (prevRotationRef st) (lastHistoryRequestIdRef st),
   [RotateSet totalRotation;
    ResultCalled (JS.index (t_options t) calculatedIndex) calculatedIndex]).

(** The effect that keeps the wheel in sync when the options are reordered.
    [refresh] is its last two assignments: [prevOptionsRef.current = options]
    and [prevRotationRef.current = rotation], where [rotation] is still the
    value of the render that runs the effect. *)
Definition reorderEffect (p : Props) (st : State) : State * list Event :=
  if (JS.length (options p) <? 2)%Z then (st, [])
  else
    let refresh (s : State) :=
      mkState (isSpinning s) (selectedIndex s) (rotation s) (prefersReducedMotion s)
        (options p) (rotation st) (lastHistoryRequestIdRef s) in
    if (JS.length (options p) =? JS.length (prevOptionsRef st))%Z
       && negb (jsstring_list_eqb (options p) (prevOptionsRef st))
       && negb (isSpinning st)
    then
      let currentIndex :=
        calculateIndexFromRotation (JS.length (options p)) (rotation st) in
      let currentOption := JS.index (prevOptionsRef st) currentIndex in
      let newIndex :=
        match currentOption with
        | Some o => indexOf (options p) o
        | None => (-1)%Z
        end in
      if negb (newIndex =? -1)%Z && negb (newIndex =? currentIndex)%Z then
        let sliceAngle := 360 / inject_Z (JS.length (options p)) in
        let indexDiff := (newIndex - currentIndex)%Z in
        let rotationAdjustment := - inject_Z indexDiff * sliceAngle in
        let newRotation := rotation st + rotationAdjustment in
        (refresh (mkState (isSpinning st) (selectedIndex st) newRotation
                    (prefersReducedMotion st) (prevOptionsRef st) newRotation
                    (lastHistoryRequestIdRef st)),
         [AnimationStarted newRotation (4 # 10)])
      else (refresh st, [])
    else (refresh st, []).

(** [historyHighlight.options.every((opt, i) => opt === options[i])]. *)
Fixpoint every_matches (snapshot : list jsstring) (opts : list jsstring) (i : Z) : bool :=
  match snapshot with
  | [] => true
  | opt :: rest =>
      match JS.index opts i with
      | Some o => jsstring_eqb opt o && every_matches rest opts (i + 1)%Z
      | None => false
      end
  end.

Definition eqb_requestId (last : option Z) (requestId : Z) : bool :=
  match last with
  | Some r => (r =? requestId)%Z
  | None => false
  end.

(** The rotation increment of a highlight: the shorter direction towards the
    target rotation. *)
Definition highlightDelta (n targetIndex : Z) (rotation : Q) : Q :=
  let targetRotation := targetRotationOf n targetIndex in
  let currentRotationMod := rem (rem rotation 360 + 360) 360 in
  let deltaRotation := rem (targetRotation - currentRotationMod + 360) 360 in
  if Qlt_le_dec 180 deltaRotation then deltaRotation - 360 else deltaRotation.

(** The effect that answers a highlight request coming from the history. *)
Definition highlightEffect (p : Props) (st : State) : State * list Event :=
  match historyHighlight p with
  | None => (st, [])
  | Some h =>
      if isSpinning st then (st, [])
      else if eqb_requestId (lastHistoryRequestIdRef st) (hh_requestId h) then (st, [])
      else if negb (JS.length (hh_options h) =? JS.length (options p))%Z
              || negb (every_matches (hh_options h) (options p) 0)
      then (st, [])
      else if (JS.length (options p) <? 2)%Z then (st, [])
      else
        let targetIndex :=
          Z.min (Z.max (hh_index h) 0) (JS.length (options p) - 1) in
        let deltaRotation :=
          highlightDelta (JS.length (options p)) targetIndex (rotation st) in
        let totalRotation := rotation st + deltaRotation in
        (mkState (isSpinning st) (Some targetIndex) totalRotation
           (prefersReducedMotion st) (prevOptionsRef st) (prevRotationRef st)
           (Some (hh_requestId h)),
         [AnimationStarted totalRotation (9 # 10)])
  end.


(** *** Drawing the wheel *)

Definition COLORS : list jsstring :=
  [str "#586170"; str "#7C8CA3"; str "#B8C0CD"; str "#454C57"; str "#9B93A6"].

(** An entry read from an array of colour strings; [None] is [undefined]. *)
Definition Color := option jsstring.

Definition color_eqb (a b : Color) : bool :=
  match a, b with
  | Some x, Some y => jsstring_eqb x y
  | None, None => true
  | _, _ => false
  end.

Definition color_at (l : list Color) (i : Z) : Color :=
  match JS.index l i with
  | Some c => c
  | None => None
  end.

(** The [for] loop of [getSegmentColor] that looks for a colour different
    from the first and the previous one; [color] is kept when none is. *)
Fixpoint pick_candidate (colorIndex : Z) (firstColor prevColor color : Color)
  (fuel : nat) (i : Z) : Color :=
  match fuel with
  | O => color
  | S fuel' =>
      let candidate :=
        JS.index COLORS (Z.rem (colorIndex + i + 1) (JS.length COLORS)) in
      if negb (color_eqb candidate firstColor) && negb (color_eqb candidate prevColor)
      then candidate
      else pick_candidate colorIndex firstColor prevColor color fuel' (i + 1)%Z
  end.

Definition getSegmentColor (index totalSegments : Z) (assignedColors : list Color)
  (offset : Z) : Color :=
  let paletteLength := JS.length COLORS in
  let colorIndex := Z.rem (index + offset) paletteLength in
  let color := JS.index COLORS colorIndex in
  let prevIndex :=
    if (index =? 0)%Z then (totalSegments - 1)%Z else (index - 1)%Z in
  let prevColor :=
    if (JS.length assignedColors >? prevIndex)%Z
    then color_at assignedColors prevIndex
    else JS.index COLORS (Z.rem (prevIndex + offset) paletteLength) in
  let adjusted :=
    if color_eqb color prevColor then
      let colorIndex1 := Z.rem (colorIndex + 1) paletteLength in
      let color1 := JS.index COLORS colorIndex1 in
      if color_eqb color1 prevColor && (paletteLength >? 2)%Z then
        let colorIndex2 := Z.rem (colorIndex1 + 1) paletteLength in
        (colorIndex2, JS.index COLORS colorIndex2)
      else (colorIndex1, color1)
    else (colorIndex, color) in
  if (index =? totalSegments - 1)%Z && (totalSegments >? 1)%Z then
    let firstColor :=
      if (JS.length assignedColors >? 0)%Z
      then color_at assignedColors 0
      else JS.index COLORS (Z.rem (0 + offset) paletteLength) in
    if color_eqb (snd adjusted) firstColor then
      pick_candidate (fst adjusted) firstColor prevColor (snd adjusted)
        (Z.to_nat paletteLength) 0
    else snd adjusted
  else snd adjusted.

(** The loop of the [segmentColors] memo: [fuel] slices are still to be
    coloured, [i] is the next one. *)
Fixpoint segmentColors_loop (total : Z) (fuel : nat) (i : Z) (colors : list Color)
  : list Color :=
  match fuel with
  | O => colors
  | S fuel' =>
      segmentColors_loop total fuel' (i + 1)%Z
        (colors ++ [getSegmentColor i total colors 0])
  end.

Definition segmentColors (opts : list jsstring) : list Color :=
  segmentColors_loop (JS.length opts) (List.length opts) 0 [].

(** [text.slice(0, e)]. *)
Definition slice_to (text : jsstring) (e : Z) : jsstring :=
  if (e <? 0)%Z then firstn (Z.to_nat (Z.max (JS.length text + e) 0)) text
  else firstn (Z.to_nat e) text.

Definition truncateText (text : jsstring) (maxLen : Z) : jsstring :=
  if (JS.length text <=? maxLen)%Z then text
  else slice_to text (maxLen - 1) ++ [8230%N].

Definition getMaxTextLength (total : Z) : Z :=
  if (total <=? 2)%Z then 8%Z
  else if (total <=? 4)%Z then 6%Z
  else if (total <=? 6)%Z then 4%Z
  else 3%Z.

(** The share sentences: each wraps the result in a pair of brackets. *)
Definition CALM_SHARE_TEMPLATES : list (jsstring -> jsstring) :=
  [ (fun result => [32467; 26524; 65306; 12304]%N ++ result ++ [12305; 12290]%N);
    (fun result => [20170; 22825; 30340; 36873; 25321; 26159; 65306; 12304]%N
                   ++ result ++ [12305; 12290]%N);
    (fun result => [36825; 27425; 23601; 36873; 65306; 12304]%N
                   ++ result ++ [12305; 12290]%N);
    (fun result => [25105; 24050; 32463; 20915; 23450; 36873; 65306; 12304]%N
                   ++ result ++ [12305; 12290]%N) ].

(** [getRandomShareText], for the draw [u] of [Math.random()]; [None] stands
    for the call of an [undefined] template. *)
Definition getRandomShareText (u : Q) (result : jsstring) : option jsstring :=
  match JS.index CALM_SHARE_TEMPLATES
          (floor (u * inject_Z (JS.length CALM_SHARE_TEMPLATES))) with
  | Some randomTemplate => Some (randomTemplate result)
  | None => None
  end.

End SpinWheel.

(** ** The same arithmetic in IEEE doubles *)

Module Double.

Import JS.

(** The value of a finite double, as [m * 2^e]. *)
Definition exact (x : float) : option (Z * Z) :=
  match Prim2SF x with
  | S754_zero _ => Some (0%Z, 0%Z)
  | S754_finite s m e => Some (if s then Z.neg m else Z.pos m, e)
  | S754_infinity _ | S754_nan => None
  end.

(** The double [m * 2^e], for [|m| < 2^53]; a zero takes the sign
    [negative]. *)
Definition of_exact (negative : bool) (m e : Z) : float :=
  match m with
  | Z0 => if negative then neg_zero else zero
  | Zpos p => SF2Prim (S754_finite false p e)
  | Zneg p => SF2Prim (S754_finite true p e)
  end.

(** An integer below [2^53] as a double. *)
Definition of_Z (n : Z) : float := of_exact false n 0.

(** [a % b] on doubles: the exact remainder, with the sign of the dividend. *)
Definition rem (a b : float) : float :=
  match exact a, exact b with
  | Some (ma, ea), Some (mb, eb) =>
      if (mb =? 0)%Z then nan
      else
        let e := Z.min ea eb in
        let r := Z.rem (ma * 2 ^ (ea - e)) (mb * 2 ^ (eb - e)) in
        of_exact (get_sign a) r e
  | Some _, None => if is_nan b then nan else a
  | None, _ => nan
  end.

(** [Math.floor] on doubles. *)
Definition floor (x : float) : float :=
  match exact x with
  | Some (m, e) =>
      if (0 <=? e)%Z then x else of_exact (get_sign x) (m / 2 ^ (- e)) 0
  | None => x
  end.

(** The integer a double stands for, if it is one. *)
Definition to_Z (x : float) : option Z :=
  match exact x with
  | Some (m, e) =>
      if (0 <=? e)%Z then Some (m * 2 ^ e)%Z
      else if (Z.rem m (2 ^ (- e)) =? 0)%Z then Some (m / 2 ^ (- e))%Z
      else None
  | None => None
  end.

(** [arr[x]] for a number [x]. *)
Definition at_index {A} (l : list A) (x : float) : option A :=
  match to_Z x with
  | Some i => JS.index l i
  | None => None
  end.

(** [calculateIndexFromRotation] as the source computes it. *)
Definition calculateIndexFromRotation (n : Z) (totalRotation : float) : float :=
  if (n <=? 0)%Z then zero
  else
    let sliceAngle := (360 / of_Z n)%float in
    let index :=
      floor (rem (360 - rem totalRotation 360) 360 / sliceAngle)%float in
    rem index (of_Z n).

(** The rotation that the reorder effect leaves, as the source computes
    it. *)
Definition reorderRotation (options prevOptions : list jsstring)
  (isSpinning : bool) (rotation : float) : float :=
  if (JS.length options <? 2)%Z then rotation
  else if (JS.length options =? JS.length prevOptions)%Z
          && negb (jsstring_list_eqb options prevOptions)
          && negb isSpinning
  then
    let currentIndex := calculateIndexFromRotation (JS.length options) rotation in
    let currentOption := at_index prevOptions currentIndex in
    let newIndex :=
      match currentOption with
      | Some o => indexOf options o
      | None => (-1)%Z
      end in
    if negb (newIndex =? -1)%Z && negb (PrimFloat.eqb (of_Z newIndex) currentIndex)
    then
      let sliceAngle := (360 / of_Z (JS.length options))%float in
      let indexDiff := (of_Z newIndex - currentIndex)%float in
      let rotationAdjustment := (- indexDiff * sliceAngle)%float in
      (rotation + rotationAdjustment)%float
    else rotation
  else rotation.

End Double.

(** ** App: the owner of the option list *)

Module App.

Import JS.

Record State := mkState {
  options : list jsstring;
  optionsHistory : list (list jsstring)
}.

(** [applyOptions(next, trackHistory)]. *)
Definition applyOptions (next : list jsstring) (trackHistory : bool) (st : State) : State :=
  if (JS.length next =? 0)%Z then st
  else if jsstring_list_eqb (options st) next then st
  else mkState next
         (if trackHistory then optionsHistory st ++ [options st] else optionsHistory st).

(** The [onChange] handler that [App] passes to [OptionEditor]. *)
Definition onChange (next : list jsstring) (st : State) : State :=
  let isReorder :=
    (JS.length next =? JS.length (options st))%Z
    && forallb (fun opt => includes (options st) opt) next
    && negb (jsstring_list_eqb next (options st)) in
  applyOptions next (negb isReorder) st.


(** [undoLastOptionsChange]. *)
Definition undoLastOptionsChange (st : State) : State :=
  match rev (optionsHistory st) with
  | [] => st
  | previous :: _ => mkState previous (removelast (optionsHistory st))
  end.

(** *** Scene names *)

Record Preset := mkPreset {
  p_name : jsstring;
  p_options : list jsstring
}.

(** The nine built-in templates (what to eat, where to go, who pays, yes or
    no, A or B, rock paper scissors, what to wear, what to drink, what to
    watch), as UTF-16 code units. *)
Definition PRESETS : list Preset :=
  [ mkPreset [21507; 20160; 20040]%N
      [[28779; 38149]; [28903; 28900]; [26085; 26009]; [22806; 21334];
       [33258; 24049; 20570]]%N;
    mkPreset [21435; 21738; 29609]%N
      [[30005; 24433; 38498]; [20581; 36523; 25151]; [20844; 22253];
       [23621; 23478]; [36891; 34903]]%N;
    mkPreset [35841; 20080; 21333]%N
      [[25105]; [20320]; [65; 65; 21046]; [19979; 27425; 25105; 35831]]%N;
    mkPreset [26159; 25110; 21542]%N
      [[26159]; [21542]]%N;
    mkPreset [36873; 65; 36824; 26159; 66]%N
      [[36873; 65]; [36873; 66]]%N;
    mkPreset [30707; 22836; 21098; 20992; 24067]%N
      [[30707; 22836]; [21098; 20992]; [24067]]%N;
    mkPreset [20170; 22825; 31359; 20160; 20040]%N
      [[20241; 38386]; [27491; 24335]; [36816; 21160]; [38543; 24847]]%N;
    mkPreset [21917; 20160; 20040]%N
      [[21654; 21857]; [22902; 33590]; [26524; 27713]; [27700]]%N;
    mkPreset [30475; 20160; 20040]%N
      [[30005; 24433]; [30005; 35270; 21095]; [32508; 33402];
       [30701; 35270; 39057]]%N ].

Record HistoryItem := mkItem {
  h_options : list jsstring;
  h_result : jsstring;
  h_index : Z;
  h_sceneName : option jsstring;
  h_createdAt : Z
}.

(** The [customSceneNames] object.  Its keys are the texts
    [JSON.stringify(options)]; a key is represented by the option list it
    was printed from, which determines it and is determined by it. *)
Definition CustomSceneNames := list (list jsstring * jsstring).

Fixpoint lookup (names : CustomSceneNames) (key : list jsstring) : option jsstring :=
  match names with
  | [] => None
  | (k, v) :: rest => if jsstring_list_eqb k key then Some v else lookup rest key
  end.

(** [{ ...names, [key]: v }]. *)
Fixpoint assign_name (names : CustomSceneNames) (key : list jsstring) (v : jsstring)
  : CustomSceneNames :=
  match names with
  | [] => [(key, v)]
  | (k, w) :: rest =>
      if jsstring_list_eqb k key then (k, v) :: rest
      else (k, w) :: assign_name rest key v
  end.

(** [delete names[key]]. *)
Definition delete_name (names : CustomSceneNames) (key : list jsstring)
  : CustomSceneNames :=
  filter (fun kv => negb (jsstring_list_eqb (fst kv) key)) names.

Definition option_eqb (a b : option jsstring) : bool :=
  match a, b with
  | Some x, Some y => jsstring_eqb x y
  | None, None => true
  | _, _ => false
  end.

(** [PRESETS.find(preset => preset.options.length === opts.length &&
    preset.options.every((opt, i) => opt === opts[i]))?.name]. *)
Definition presetName (opts : list jsstring) : option jsstring :=
  option_map p_name
    (find (fun preset =>
             (JS.length (p_options preset) =? JS.length opts)%Z
             && SpinWheel.every_matches (p_options preset) opts 0)
       PRESETS).

Definition getSceneName (customSceneNames : CustomSceneNames) (opts : list jsstring)
  : option jsstring :=
  match lookup customSceneNames opts with
  | Some (c :: name) => Some (c :: name)
  | _ => presetName opts
  end.

Definition with_sceneName (item : HistoryItem) (sceneName : option jsstring)
  : HistoryItem :=
  mkItem (h_options item) (h_result item) (h_index item) sceneName (h_createdAt item).

Definition saveCustomSceneName (optionsKey : list jsstring) (name : jsstring)
  (customSceneNames : CustomSceneNames) (history : list HistoryItem)
  : CustomSceneNames * list HistoryItem :=
  match trim name with
  | [] => (customSceneNames, history)
  | trimmedName =>
      (assign_name customSceneNames optionsKey trimmedName,
       map (fun item =>
              if jsstring_list_eqb (h_options item) optionsKey
              then with_sceneName item (Some trimmedName)
              else item) history)
  end.

Definition deleteCustomSceneName (optionsKey : list jsstring)
  (customSceneNames : CustomSceneNames) (history : list HistoryItem)
  : CustomSceneNames * list HistoryItem :=
  (delete_name customSceneNames optionsKey,
   map (fun item =>
          if jsstring_list_eqb (h_options item) optionsKey
          then with_sceneName item (presetName (h_options item))
          else item) history).

(** *** Decision history *)

Definition same_decision (h item : HistoryItem) : bool :=
  jsstring_eqb (h_result h) (h_result item)
  && option_eqb (h_sceneName h) (h_sceneName item)
  && jsstring_list_eqb (h_options h) (h_options item).

(** [handleResult(result, index)], called at time [now] with the option list
    and the scene names of the render that started the spin. *)
Definition handleResult (options : list jsstring) (customSceneNames : CustomSceneNames)
  (now : Z) (result : jsstring) (index : Z) (prev : list HistoryItem)
  : list HistoryItem :=
  let sceneName := getSceneName customSceneNames options in
  let item := mkItem options result index sceneName now in
  let filtered := filter (fun h => negb (same_decision h item)) prev in
  firstn 5 (item :: filtered).

(** *** Recent presets *)

Fixpoint findIndex_from {A} (f : A -> bool) (l : list A) (i : Z) : Z :=
  match l with
  | [] => (-1)%Z
  | x :: l' => if f x then i else findIndex_from f l' (i + 1)%Z
  end.

(** [addRecentPreset(options)], for the list [presets] read from storage;
    the result is both stored and returned. *)
Definition addRecentPreset (presets : list (list jsstring)) (options : list jsstring)
  : list (list jsstring) :=
  let existingIndex :=
    findIndex_from (fun preset => jsstring_list_eqb preset options) presets 0 in
  let updatedPresets :=
    if negb (existingIndex =? -1)%Z then
      match JS.index presets existingIndex with
      | Some existing =>
          existing :: firstn (Z.to_nat existingIndex) presets
                   ++ skipn (Z.to_nat (existingIndex + 1)) presets
      | None => (* not reached: [findIndex] returns a position of the list *)
          firstn (Z.to_nat existingIndex) presets
          ++ skipn (Z.to_nat (existingIndex + 1)) presets
      end
    else options :: presets in
  firstn 5 updatedPresets.

(** *** Relative times *)

Inductive RelativeTime :=
| JustNow
| SecondsAgo (sec : Z)
| MinutesAgo (min : Z)
| HoursAgo (hour : Z)
| DaysAgo (day : Z).

(** The case analysis of [formatRelativeTime]; [now] is [Date.now()]. *)
Definition relativeTime (now timestamp : Z) : RelativeTime :=
  let diff := (now - timestamp)%Z in
  let sec := (diff / 1000)%Z in
  if (sec <? 10)%Z then JustNow
  else if (sec <? 60)%Z then SecondsAgo sec
  else
    let min := (sec / 60)%Z in
    if (min <? 60)%Z then MinutesAgo min
    else
      let hour := (min / 60)%Z in
      if (hour <? 24)%Z then HoursAgo hour
      else DaysAgo (hour / 24)%Z.

(** The decimal text of an integer. *)
Definition number_text (n : Z) : jsstring :=
  str (NilZero.string_of_int (Z.to_int n)).

Definition formatRelativeTime (now timestamp : Z) : jsstring :=
  match relativeTime now timestamp with
  | JustNow => [21018; 21018]%N
  | SecondsAgo sec => number_text sec ++ [32; 31186; 21069]%N
  | MinutesAgo min => number_text min ++ [32; 20998; 38047; 21069]%N
  | HoursAgo hour => number_text hour ++ [32; 23567; 26102; 21069]%N
  | DaysAgo day => number_text day ++ [32; 22825; 21069]%N
  end.

End App.

(** ** OptionEditor *)

Module OptionEditor.

Import JS.

Record State := mkState {
  newOption : jsstring;
  editingIndex : option Z;
  editValue : jsstring;
  isAddingNew : bool;
  isProcessingAddRef : bool
}.

Inductive Toast := MaxOptionsReached | OptionExists.

(** Calls that leave the editor: toasts, and [onChange(next)]. *)
Inductive Event :=
| ToastShown (t : Toast)
| Changed (next : list jsstring).

Definition isEmpty (s : jsstring) : bool :=
  match s with [] => true | _ => false end.

(** [arr.filter((_, i) => i !== index)], counting from [i]. *)
Fixpoint filter_other (l : list jsstring) (index i : Z) : list jsstring :=
  match l with
  | [] => []
  | x :: l' =>
      if (i =? index)%Z then filter_other l' index (i + 1)%Z
      else x :: filter_other l' index (i + 1)%Z
  end.

(** [arr.some((opt, idx) => opt === v && idx !== index)], counting from [i]. *)
Fixpoint some_other (l : list jsstring) (v : jsstring) (index i : Z) : bool :=
  match l with
  | [] => false
  | x :: l' =>
      (jsstring_eqb x v && negb (i =? index)%Z) || some_other l' v index (i + 1)%Z
  end.

(** A copy of [l] with [l[index] = v], for an index inside the list. *)
Fixpoint assign (l : list jsstring) (index : Z) (v : jsstring) (i : Z) : list jsstring :=
  match l with
  | [] => []
  | x :: l' =>
      (if (i =? index)%Z then v else x) :: assign l' index v (i + 1)%Z
  end.

Definition addOption (options : list jsstring) (st : State) : State * list Event :=
  if isProcessingAddRef st then (st, [])
  else
    let trimmedOption := trim (newOption st) in
    let closed := mkState [] (editingIndex st) (editValue st) false false in
    if isEmpty trimmedOption then (closed, [])
    else if (JS.length options >=? 12)%Z then (closed, [ToastShown MaxOptionsReached])
    else if includes options trimmedOption then (closed, [ToastShown OptionExists])
    else (closed, [Changed (options ++ [trimmedOption])]).

Definition removeOption (options : list jsstring) (index : Z) (st : State)
  : State * list Event :=
  if (JS.length options >? 2)%Z && (index >=? 0)%Z && (index <? JS.length options)%Z
  then (st, [Changed (filter_other options index 0)])
  else (st, []).

Definition saveEdit (options : list jsstring) (st : State) : State * list Event :=
  let cleared :=
    mkState (newOption st) None [] (isAddingNew st) (isProcessingAddRef st) in
  match editingIndex st with
  | Some editingIndex =>
      if negb (isEmpty (trim (editValue st)))
         && (editingIndex >=? 0)%Z && (editingIndex <? JS.length options)%Z
      then
        let trimmedValue := trim (editValue st) in
        if some_other options trimmedValue editingIndex 0 then (cleared, [])
        else (cleared, [Changed (assign options editingIndex trimmedValue 0)])
      else (cleared, [])
  | None => (cleared, [])
  end.

(** The option list the parent holds once it has handled the editor's calls. *)
Definition deliver (evs : list Event) (app : App.State) : App.State :=
  fold_left (fun a e => match e with
                        | Changed next => App.onChange next a
                        | ToastShown _ => a
                        end) evs app.

Definition optionsAfter (options : list jsstring) (r : State * list Event)
  : list jsstring :=
  App.options (deliver (snd r) (App.mkState options [])).

(** The invariant of the edited list. *)
Definition valid (options : list jsstring) : Prop :=
  (2 <= JS.length options <= 12)%Z /\ NoDup options.


(** *** Applying a template *)

(** The two refs that guard [applyPreset].  [lastAppliedPresetRef] holds the
    text [JSON.stringify(presetOptions)], represented by the list itself;
    its initial value, the empty text, is the text of no list: [None]. *)
Record PresetRefs := mkPresetRefs {
  isApplyingPresetRef : bool;
  lastAppliedPresetRef : option (list jsstring)
}.

Definition eqb_presetKey (last : option (list jsstring)) (presetOptions : list jsstring)
  : bool :=
  match last with
  | Some k => jsstring_list_eqb k presetOptions
  | None => false
  end.

(** [applyPreset(presetOptions)]: the refs afterwards and the argument of
    the [onChange] call, if one is made (a toast and a 300 ms timer go with
    it). *)
Definition applyPreset (presetOptions : list jsstring) (refs : PresetRefs)
  : PresetRefs * option (list jsstring) :=
  if isApplyingPresetRef refs then (refs, None)
  else if eqb_presetKey (lastAppliedPresetRef refs) presetOptions then (refs, None)
  else (mkPresetRefs true (Some presetOptions), Some presetOptions).

(** The timer callback of [applyPreset]. *)
Definition presetTimer (refs : PresetRefs) : PresetRefs :=
  mkPresetRefs false (lastAppliedPresetRef refs).

End OptionEditor.

(** ** Predicates used in the statements *)

Module Pred.

Import JS SpinWheel.

(** [c] is one of the five palette colours. *)
Definition in_palette (c : Color) : Prop :=
  exists k : Z, (0 <= k < 5)%Z /\ c = JS.index COLORS k.

(** No two neighbours of the list are equal. *)
Definition neighbours_differ {A} (l : list A) : Prop :=
  forall (j : nat) (a b : A),
    nth_error l j = Some a -> nth_error l (S j) = Some b -> a <> b.

(** Every history item carries the scene name of its option list. *)
Definition names_coherent (names : App.CustomSceneNames)
  (history : list App.HistoryItem) : Prop :=
  Forall (fun h => App.h_sceneName h = App.getSceneName names (App.h_options h))
    history.

(** No two history items record the same decision. *)
Definition decisions_differ (history : list App.HistoryItem) : Prop :=
  ForallOrdPairs (fun a b => App.same_decision a b = false) history.

End Pred.

(** ** Concrete wheels used in the examples *)

Module Scenario.

Import JS SpinWheel.

Definition ABCD : list jsstring := [str "A"; str "B"; str "C"; str "D"].
Definition CABD : list jsstring := [str "C"; str "A"; str "B"; str "D"].

(** A wheel over [ABCD] whose parent passes [onSpinStart]. *)
Definition wheel : Props := mkProps ABCD true None.

(** Draws 0.125, 0.5, 0.5: target index 0 and six whole extra turns. *)
Definition whole_turns : Draws := mkDraws (1 # 8) (1 # 2) (1 # 2).

(** Draws 0.125, 0.25, 0.5: target index 0 and five and a half extra turns. *)
Definition half_turn : Draws := mkDraws (1 # 8) (1 # 4) (1 # 2).

(** The wheel at rest on "C" (angle 1935), then given the order [CABD]. *)
Definition resting_on_C : State := mkState false (Some 2%Z) 1935 false ABCD 1935 None.
Definition reordered : Props := mkProps CABD true None.

(** A replay request for the current list with an index past its end. *)
Definition replay : HistoryHighlight := mkHighlight ABCD 9 1.
Definition replaying : Props := mkProps ABCD true (Some replay).

(** The same request with a snapshot in another order. *)
Definition stale : Props := mkProps ABCD true (Some (mkHighlight CABD 2 1)).

(** A wheel in the middle of a spin. *)
Definition in_flight : State := mkState true None 0 false ABCD 0 None.

(** Seven options, and the same with "A" moved from the front to index 3. *)
Definition seven : list jsstring :=
  [str "A"; str "B"; str "C"; str "D"; str "E"; str "F"; str "G"].
Definition seven_moved : list jsstring :=
  [str "B"; str "C"; str "D"; str "A"; str "E"; str "F"; str "G"].

(** Six options. *)
Definition six : list jsstring :=
  [str "A"; str "B"; str "C"; str "D"; str "E"; str "F"].

(** A decision history of one entry, and three recent presets. *)
Definition one_decision : list App.HistoryItem :=
  [App.mkItem ABCD (str "C") 2 None 1000].
Definition recent : list (list jsstring) := [six; ABCD; CABD].

(** An editor with " E " typed as a new option and entry 2 being renamed
    to " Z". *)
Definition editing : OptionEditor.State :=
  OptionEditor.mkState (str " E ") (Some 2%Z) (str " Z") true false.

End Scenario.

(** ** The arithmetic of angles *)

Import JS SpinWheel.

Section Arithmetic.

Lemma Qfloor_unique (x : Q) (z : Z) :
  inject_Z z <= x -> x < inject_Z z + 1 -> Qfloor x = z.
Proof.
  intros Hlo Hhi.
  pose proof (Qfloor_le x) as Hfl.
  pose proof (Qlt_floor x) as Hfu.
  rewrite inject_Z_plus in Hfu. change (inject_Z 1) with 1 in Hfu.
  assert (inject_Z z < inject_Z (Qfloor x) + 1) as H1 by lra.
  assert (inject_Z (Qfloor x) < inject_Z z + 1) as H2 by lra.
  change 1 with (inject_Z 1) in H1, H2.
  rewrite <- inject_Z_plus in H1, H2.
  rewrite <- Zlt_Qlt in H1, H2. lia.
Qed.

Lemma Qfloor_bounds (x : Q) :
  inject_Z (Qfloor x) <= x /\ x < inject_Z (Qfloor x) + 1.
Proof.
  split; [apply Qfloor_le|].
  pose proof (Qlt_floor x) as H.
  rewrite inject_Z_plus in H. exact H.
Qed.

Lemma Qfloor_add_Z (x : Q) (k : Z) :
  Qfloor (x + inject_Z k) = (Qfloor x + k)%Z.
Proof.
  destruct (Qfloor_bounds x) as [Hlo Hhi].
  apply Qfloor_unique; rewrite inject_Z_plus; lra.
Qed.

Lemma Qtrunc_nonneg (x : Q) : 0 <= x -> Qtrunc x = Qfloor x.
Proof.
  destruct x as [n d]. unfold Qle, Qtrunc, Qfloor. simpl. intros H.
  apply Z.quot_div_nonneg; lia.
Qed.

Lemma Qtrunc_nonpos (x : Q) : x <= 0 -> Qtrunc x = (- Qfloor (- x))%Z.
Proof.
  intros H.
  rewrite <- (Qtrunc_nonneg (- x)) by lra.
  destruct x as [n d]. unfold Qtrunc. simpl.
  rewrite Z.quot_opp_l by lia. lia.
Qed.

(** [a % 360] differs from [a] by a whole number of turns and keeps the sign
    of [a]. *)
Lemma rem360_nonneg (a : Q) :
  0 <= a ->
  exists k : Z, rem a 360 == a - 360 * inject_Z k /\ 0 <= rem a 360 /\ rem a 360 < 360.
Proof.
  intros Ha. exists (Qtrunc (a / 360)). unfold rem.
  split; [reflexivity|].
  assert (0 <= a / 360) as Hq by (apply Qle_shift_div_l; lra).
  rewrite (Qtrunc_nonneg _ Hq).
  destruct (Qfloor_bounds (a / 360)) as [Hlo Hhi].
  assert (a == 360 * (a / 360)) as E by (field).
  split; lra.
Qed.

Lemma rem360_nonpos (a : Q) :
  a <= 0 ->
  exists k : Z, rem a 360 == a - 360 * inject_Z k /\ - (360) < rem a 360 /\ rem a 360 <= 0.
Proof.
  intros Ha. exists (Qtrunc (a / 360)). unfold rem.
  split; [reflexivity|].
  assert (a == 360 * (a / 360)) as E by (field).
  assert (a / 360 <= 0) as Hq by lra.
  rewrite (Qtrunc_nonpos _ Hq).
  destruct (Qfloor_bounds (- (a / 360))) as [Hlo Hhi].
  rewrite inject_Z_opp.
  split; lra.
Qed.

Lemma rem360_any (a : Q) :
  exists k : Z, rem a 360 == a - 360 * inject_Z k /\ - (360) < rem a 360 /\ rem a 360 < 360.
Proof.
  destruct (Qlt_le_dec a 0) as [Hneg|Hpos].
  - destruct (rem360_nonpos a) as (k & E & Hlo & Hhi); [lra|].
    exists k. repeat split; try assumption; lra.
  - destruct (rem360_nonneg a Hpos) as (k & E & Hlo & Hhi).
    exists k. repeat split; try assumption; lra.
Qed.

Lemma inject_Z_pos (n : Z) : (0 < n)%Z -> 0 < inject_Z n.
Proof. intros H. change 0 with (inject_Z 0). now rewrite <- Zlt_Qlt. Qed.

Lemma Qfloor_range (x : Q) (n : Z) :
  0 <= x -> x < inject_Z n -> (0 <= Qfloor x < n)%Z.
Proof.
  intros Hlo Hhi. destruct (Qfloor_bounds x) as [Hfl Hfu].
  assert (inject_Z (Qfloor x) < inject_Z n) as H1 by lra.
  assert (inject_Z (-1) < inject_Z (Qfloor x)) as H2.
  { change (inject_Z (-1)) with (-(1)). lra. }
  rewrite <- Zlt_Qlt in H1, H2. lia.
Qed.

(** The slice angle [360 / n] and its multiples inside one turn. *)
Lemma slice_pos (n : Z) : (0 < n)%Z -> 0 < 360 / inject_Z n.
Proof.
  intros Hn. apply Qlt_shift_div_l; [now apply inject_Z_pos|lra].
Qed.

Lemma slice_turn (n : Z) : (0 < n)%Z -> inject_Z n * (360 / inject_Z n) == 360.
Proof.
  intros Hn. pose proof (inject_Z_pos n Hn). field. lra.
Qed.

Lemma slice_multiple (n i : Z) :
  (0 < n)%Z -> (0 <= i < n)%Z ->
  0 <= inject_Z i * (360 / inject_Z n)
  /\ inject_Z i * (360 / inject_Z n) + 360 / inject_Z n <= 360.
Proof.
  intros Hn [Hi0 Hi1].
  pose proof (slice_pos n Hn) as Hs. pose proof (slice_turn n Hn) as Ht.
  assert (0 <= inject_Z i) as Hq0.
  { change 0 with (inject_Z 0). now rewrite <- Zle_Qle. }
  assert (inject_Z i + 1 <= inject_Z n) as Hq1.
  { change 1 with (inject_Z 1). rewrite <- inject_Z_plus, <- Zle_Qle. lia. }
  split.
  - apply Qmult_le_0_compat; lra.
  - assert ((inject_Z i + 1) * (360 / inject_Z n)
            <= inject_Z n * (360 / inject_Z n)) as H.
    { apply Qmult_le_compat_r; lra. }
    lra.
Qed.

(** The angle of the wheel that sits under the pointer after a rotation by
    [r]: it lies in one turn and equals [- r] up to whole turns. *)
Lemma pointer_residue (r : Q) :
  exists k : Z,
    rem (360 - rem r 360) 360 == 360 * inject_Z k - r
    /\ 0 <= rem (360 - rem r 360) 360 /\ rem (360 - rem r 360) 360 < 360.
Proof.
  destruct (rem360_any r) as (k1 & E1 & Hlo1 & Hhi1).
  destruct (rem360_nonneg (360 - rem r 360)) as (k2 & E2 & Hlo2 & Hhi2); [lra|].
  exists (1 + k1 - k2)%Z.
  unfold Z.sub. rewrite !inject_Z_plus, inject_Z_opp. change (inject_Z 1) with 1.
  repeat split; lra.
Qed.

(** [calculateIndexFromRotation] is the floor of the pointer angle counted in
    slices, and it is an index of the list. *)
Lemma calculateIndex_floor (n : Z) (r : Q) :
  (0 < n)%Z ->
  calculateIndexFromRotation n r
  = Qfloor (rem (360 - rem r 360) 360 * inject_Z n / 360)
  /\ (0 <= calculateIndexFromRotation n r < n)%Z.
Proof.
  intros Hn. unfold calculateIndexFromRotation, floor.
  destruct (Z.leb_spec n 0) as [Hle|_]; [lia|].
  pose proof (inject_Z_pos n Hn) as Hq.
  destruct (pointer_residue r) as (k & _ & Hlo & Hhi).
  set (P := rem (360 - rem r 360) 360) in *.
  assert (P / (360 / inject_Z n) == P * inject_Z n / 360) as E by (field; lra).
  rewrite (Qfloor_comp _ _ E).
  assert (0 <= P * inject_Z n / 360) as H0.
  { apply Qle_shift_div_l; [lra|]. rewrite Qmult_0_l.
    apply Qmult_le_0_compat; lra. }
  assert (P * inject_Z n / 360 < inject_Z n) as H1.
  { apply Qlt_shift_div_r; [lra|].
    rewrite (Qmult_comm P). apply Qmult_lt_l; lra. }
  pose proof (Qfloor_range _ _ H0 H1) as Hr.
  rewrite Z.rem_small by lia. split; [reflexivity|exact Hr].
Qed.

Lemma calculateIndex_range (n : Z) (r : Q) :
  (0 < n)%Z -> (0 <= calculateIndexFromRotation n r < n)%Z.
Proof. intros Hn. apply (calculateIndex_floor n r Hn). Qed.

(** Turning the wheel back by [d] slices moves the pointer [d] slices on. *)
Lemma calculateIndex_shift (n d : Z) (r r' : Q) :
  (0 < n)%Z ->
  r' == r - inject_Z d * (360 / inject_Z n) ->
  calculateIndexFromRotation n r'
  = ((calculateIndexFromRotation n r + d) mod n)%Z.
Proof.
  intros Hn Hr'.
  destruct (calculateIndex_floor n r Hn) as [E Hrange].
  destruct (calculateIndex_floor n r' Hn) as [E' Hrange'].
  destruct (pointer_residue r) as (k & Ek & _).
  destruct (pointer_residue r') as (k' & Ek' & _).
  pose proof (inject_Z_pos n Hn) as Hq.
  assert (rem (360 - rem r' 360) 360 * inject_Z n / 360
          == rem (360 - rem r 360) 360 * inject_Z n / 360
             + inject_Z (n * (k' - k) + d)) as Hx.
  { rewrite Ek, Ek', Hr'.
    unfold Z.sub. rewrite !inject_Z_plus, inject_Z_mult, inject_Z_plus, inject_Z_opp. field. lra. }
  rewrite (Qfloor_comp _ _ Hx), Qfloor_add_Z, <- E in E'.
  apply Z.mod_unique with (q := (k - k')%Z); lia.
Qed.

(** The target rotation lies in one turn. *)
Lemma targetRotation_range (n i : Z) :
  (0 < n)%Z -> (0 <= i < n)%Z ->
  0 <= targetRotationOf n i /\ targetRotationOf n i < 360.
Proof.
  intros Hn Hi. unfold targetRotationOf.
  destruct (slice_multiple n i Hn Hi) as [H0 H1].
  pose proof (slice_pos n Hn) as Hs.
  pose proof (inject_Z_pos n Hn) as Hq.
  assert (360 / inject_Z n / 2 == (360 / inject_Z n) * (1 # 2)) as E
    by (field; lra).
  destruct (rem360_nonneg
              (90 - inject_Z i * (360 / inject_Z n) - 360 / inject_Z n / 2 + 360))
    as (k & _ & Hlo & Hhi); [lra|].
  split; assumption.
Qed.

(** The forward delta of [spin] lies in one turn and reaches the target
    rotation up to whole turns. *)
Lemma deltaRotation_forward (target r : Q) :
  0 <= target -> target < 360 ->
  0 <= deltaRotationOf target r /\ deltaRotationOf target r < 360
  /\ exists k : Z, r + deltaRotationOf target r == target + 360 * inject_Z k.
Proof.
  intros Ht0 Ht1. unfold deltaRotationOf.
  destruct (rem360_any r) as (k1 & E1 & Hlo1 & Hhi1).
  destruct (Qlt_le_dec (target - rem r 360 + 360) 0) as [Hneg|Hpos].
  - exfalso. lra.
  - destruct (rem360_nonneg (target - rem r 360 + 360) Hpos) as (k2 & E2 & Hlo2 & Hhi2).
    repeat split; try assumption.
    exists (1 + k1 - k2)%Z. unfold Z.sub.
    rewrite !inject_Z_plus, inject_Z_opp. change (inject_Z 1) with 1. lra.
Qed.

(** The delta of a highlight takes the shorter direction. *)
Lemma highlightDelta_range (n i : Z) (r : Q) :
  (0 < n)%Z -> (0 <= i < n)%Z ->
  - (180) < highlightDelta n i r /\ highlightDelta n i r <= 180.
Proof.
  intros Hn Hi. unfold highlightDelta.
  destruct (targetRotation_range n i Hn Hi) as [Ht0 Ht1].
  destruct (rem360_any r) as (k1 & _ & Hlo1 & Hhi1).
  destruct (rem360_nonneg (rem r 360 + 360)) as (k2 & _ & Hlo2 & Hhi2); [lra|].
  destruct (rem360_nonneg
              (targetRotationOf n i - rem (rem r 360 + 360) 360 + 360))
    as (k3 & _ & Hlo3 & Hhi3); [lra|].
  destruct (Qlt_le_dec 180 _); split; lra.
Qed.

(** What the inverse mapping recovers from a target rotation: the target
    index moved by [floor ((2 - n) / 4)] slices. *)
Lemma roundtrip_offset (n i : Z) :
  (0 < n)%Z -> (0 <= i < n)%Z ->
  calculateIndexFromRotation n (targetRotationOf n i)
  = ((i + (2 - n) / 4) mod n)%Z.
Proof.
  intros Hn Hi.
  destruct (calculateIndex_floor n (targetRotationOf n i) Hn) as [E Hrange].
  destruct (pointer_residue (targetRotationOf n i)) as (k & Ek & _).
  destruct (rem360_any
              (90 - inject_Z i * (360 / inject_Z n) - 360 / inject_Z n / 2 + 360))
    as (k1 & E1 & _).
  fold (targetRotationOf n i) in E1.
  pose proof (inject_Z_pos n Hn) as Hq.
  assert (rem (360 - rem (targetRotationOf n i) 360) 360 * inject_Z n / 360
          == ((2 - n) # 4) + inject_Z (n * (k + k1 - 1) + i)) as Hx.
  { rewrite Ek, E1, (Qmake_Qdiv (2 - n) 4).
    unfold Z.sub.
    rewrite !inject_Z_plus, inject_Z_mult, !inject_Z_plus, !inject_Z_opp.
    change (inject_Z (Z.pos 4)) with 4. change (inject_Z 2) with 2.
    change (inject_Z 1) with 1. field. lra. }
  rewrite (Qfloor_comp _ _ Hx), Qfloor_add_Z in E.
  change (Qfloor ((2 - n) # 4)) with ((2 - n) / 4)%Z in E.
  apply Z.mod_unique with (q := (1 - k - k1)%Z); lia.
Qed.

End Arithmetic.

(** ** Array lookups *)

Section Arrays.

Lemma jsstring_eqb_eq (a b : jsstring) : jsstring_eqb a b = true <-> a = b.
Proof.
  unfold jsstring_eqb. destruct (list_eq_dec N.eq_dec a b); split; congruence.
Qed.

Lemma jsstring_list_eqb_eq (a b : list jsstring) :
  jsstring_list_eqb a b = true <-> a = b.
Proof.
  unfold jsstring_list_eqb.
  destruct (list_eq_dec (list_eq_dec N.eq_dec) a b); split; congruence.
Qed.

Lemma index_in_range {A} (l : list A) (i : Z) :
  (0 <= i < JS.length l)%Z -> exists x, JS.index l i = Some x /\ In x l.
Proof.
  intros [Hlo Hhi]. unfold JS.index, JS.length in *.
  destruct (Z.ltb_spec i 0) as [Hneg|_]; [lia|].
  destruct (nth_error l (Z.to_nat i)) as [x|] eqn:E.
  - exists x. split; [reflexivity|]. eapply nth_error_In; eauto.
  - apply nth_error_None in E. lia.
Qed.

(** [indexOf] returns [-1] or the position of an occurrence. *)
Lemma indexOf_from_spec (l : list jsstring) (x : jsstring) (i : Z) :
  (0 <= i)%Z ->
  (indexOf_from l x i = (-1)%Z /\ ~ In x l)
  \/ ((i <= indexOf_from l x i < i + JS.length l)%Z
      /\ nth_error l (Z.to_nat (indexOf_from l x i - i)) = Some x).
Proof.
  revert i. unfold JS.length.
  induction l as [|y l IH]; intros i Hi; simpl indexOf_from.
  - left. split; [reflexivity|]. intros [].
  - destruct (jsstring_eqb y x) eqn:E.
    + right. apply jsstring_eqb_eq in E. subst y.
      rewrite Z.sub_diag. simpl. split; [lia|reflexivity].
    + assert (y <> x) as Hne.
      { intros ->. rewrite (proj2 (jsstring_eqb_eq x x) eq_refl) in E. discriminate. }
      destruct (IH (i + 1)%Z) as [[E1 Hnot]|[Hr Hn]]; [lia| |].
      * left. split; [exact E1|]. intros [H|H]; [congruence|tauto].
      * right. split; [simpl List.length; lia|].
        replace (Z.to_nat (indexOf_from l x (i + 1) - i))
          with (S (Z.to_nat (indexOf_from l x (i + 1) - (i + 1)))) by lia.
        exact Hn.
Qed.

Lemma indexOf_found (l : list jsstring) (x : jsstring) :
  In x l ->
  (0 <= indexOf l x < JS.length l)%Z /\ JS.index l (indexOf l x) = Some x.
Proof.
  intros Hin. unfold indexOf.
  destruct (indexOf_from_spec l x 0) as [[_ Hnot]|[Hr Hn]]; [lia|tauto|].
  split; [lia|]. unfold JS.index.
  destruct (Z.ltb_spec (indexOf_from l x 0) 0) as [Hneg|_]; [lia|].
  rewrite Z.sub_0_r in Hn. exact Hn.
Qed.

Lemma skipn_nth_error {A} (l : list A) (k : nat) (x : A) :
  nth_error l k = Some x -> skipn k l = x :: skipn (S k) l.
Proof.
  revert l. induction k as [|k IH]; intros [|y l] H; try discriminate.
  - simpl in H. injection H as ->. reflexivity.
  - simpl in H. apply IH in H. exact H.
Qed.

(** The [every] test of the highlight effect succeeds from position [k] only
    if the snapshot is read back from the options at that position. *)
Lemma every_matches_prefix (snapshot opts : list jsstring) (k : nat) :
  every_matches snapshot opts (Z.of_nat k) = true ->
  exists rest, skipn k opts = snapshot ++ rest.
Proof.
  revert k. induction snapshot as [|x s IH]; intros k H.
  - exists (skipn k opts). reflexivity.
  - simpl in H. unfold JS.index in H.
    destruct (Z.ltb_spec (Z.of_nat k) 0) as [Hneg|_]; [lia|].
    rewrite Nat2Z.id in H.
    destruct (nth_error opts k) as [o|] eqn:E; [|discriminate].
    apply andb_true_iff in H. destruct H as [Hx Hrest].
    apply jsstring_eqb_eq in Hx. subst o.
    replace (Z.of_nat k + 1)%Z with (Z.of_nat (S k)) in Hrest by lia.
    destruct (IH _ Hrest) as [rest Hs].
    exists rest. rewrite (skipn_nth_error _ _ _ E), Hs. reflexivity.
Qed.

Lemma every_matches_same (pre l : list jsstring) :
  every_matches l (pre ++ l) (JS.length pre) = true.
Proof.
  revert pre. induction l as [|x l IH]; intros pre; [reflexivity|].
  simpl. unfold JS.index, JS.length.
  destruct (Z.ltb_spec (Z.of_nat (List.length pre)) 0) as [Hneg|_]; [lia|].
  rewrite Nat2Z.id, nth_error_app2, Nat.sub_diag by lia. simpl.
  rewrite (proj2 (jsstring_eqb_eq x x) eq_refl). simpl.
  specialize (IH (pre ++ [x])). rewrite <- app_assoc in IH. simpl in IH.
  unfold JS.length in IH. rewrite length_app in IH. simpl in IH.
  replace (Z.of_nat (List.length pre) + 1)%Z
    with (Z.of_nat (List.length pre + 1)) by lia.
  exact IH.
Qed.

(** The snapshot test of the highlight effect is equality of the lists. *)
Lemma snapshot_test (snapshot opts : list jsstring) :
  negb (JS.length snapshot =? JS.length opts)%Z
  || negb (every_matches snapshot opts 0) = false
  <-> snapshot = opts.
Proof.
  split.
  - intros H. apply orb_false_iff in H. destruct H as [Hlen Hev].
    apply negb_false_iff in Hlen, Hev. apply Z.eqb_eq in Hlen.
    destruct (every_matches_prefix snapshot opts 0 Hev) as [rest Hs].
    simpl in Hs. subst opts. unfold JS.length in Hlen.
    rewrite length_app in Hlen.
    destruct rest; [now rewrite app_nil_r|simpl in Hlen; lia].
  - intros ->. rewrite Z.eqb_refl.
    pose proof (every_matches_same [] opts) as H. simpl in H.
    change (JS.length []) with 0%Z in H. now rewrite H.
Qed.

End Arrays.

(** ** The wheel *)

Section Wheel.

(** The reorder adjustment over exact angles.  When the option list is
    reordered (same length, same labels, another order) while no spin is in
    flight, the reorder effect turns the wheel by
    [-(newIndex - currentIndex) * (360 / N)] degrees, and, as long as no
    angle is rounded, the label that the inverse mapping finds under the
    pointer afterwards, in the new order, is the label it found before, in
    the old order.  In doubles the angles are rounded, and the label is lost
    at a slice boundary: see [reorder_loses_pointed_label_in_doubles]. *)
Theorem reorder_keeps_pointed_label (p : Props) (st : State) :
  (2 <= JS.length (options p))%Z ->
  Permutation (prevOptionsRef st) (options p) ->
  options p <> prevOptionsRef st ->
  isSpinning st = false ->
  exists label : jsstring,
    JS.index (prevOptionsRef st)
      (calculateIndexFromRotation (JS.length (options p)) (rotation st))
    = Some label
    /\ JS.index (options p)
         (calculateIndexFromRotation (JS.length (options p))
            (rotation (fst (reorderEffect p st))))
       = Some label
    /\ rotation (fst (reorderEffect p st))
       == rotation st
          - inject_Z (indexOf (options p) label
                      - calculateIndexFromRotation (JS.length (options p)) (rotation st))
            * (360 / inject_Z (JS.length (options p))).
Proof.
  intros Hn Hperm Hne Hidle.
  assert (JS.length (prevOptionsRef st) = JS.length (options p)) as Hlen.
  { unfold JS.length. now rewrite (Permutation_length Hperm). }
  set (n := JS.length (options p)) in *.
  set (cur := calculateIndexFromRotation n (rotation st)).
  assert (0 <= cur < n)%Z as Hcur by (apply calculateIndex_range; lia).
  destruct (index_in_range (prevOptionsRef st) cur) as (label & Hlabel & Hin); [lia|].
  pose proof (Permutation_in _ Hperm Hin) as Hin'.
  destruct (indexOf_found (options p) label Hin') as [Hnew Hnewlabel].
  exists label. split; [exact Hlabel|].
  unfold reorderEffect. fold n. fold cur.
  destruct (Z.ltb_spec n 2) as [Hlt|_]; [lia|].
  rewrite Hlen, Z.eqb_refl, Hidle.
  destruct (jsstring_list_eqb (options p) (prevOptionsRef st)) eqn:Eeq.
  { apply jsstring_list_eqb_eq in Eeq. contradiction. }
  cbn [andb negb]. rewrite Hlabel.
  set (new := indexOf (options p) label) in *.
  destruct (Z.eqb_spec new (-1)) as [Hm|_]; [lia|].
  destruct (Z.eqb_spec new cur) as [Hsame|Hdiff]; cbn [andb negb fst rotation].
  - fold cur. rewrite <- Hsame. split; [exact Hnewlabel|].
    rewrite Z.sub_diag. change (inject_Z 0) with 0. lra.
  - fold n in Hnew. split; [|lra].
    rewrite (calculateIndex_shift n (new - cur) (rotation st)); [|lia|lra].
    fold cur. replace (cur + (new - cur))%Z with new by lia.
    rewrite Z.mod_small by lia. exact Hnewlabel.
Qed.

Lemma reorder_keeps_pointed_label_witness :
  (2 <= JS.length (options Scenario.reordered))%Z
  /\ Permutation (prevOptionsRef Scenario.resting_on_C) (options Scenario.reordered)
  /\ options Scenario.reordered <> prevOptionsRef Scenario.resting_on_C
  /\ isSpinning Scenario.resting_on_C = false
  /\ exists label : jsstring,
       JS.index (prevOptionsRef Scenario.resting_on_C)
         (calculateIndexFromRotation (JS.length (options Scenario.reordered))
            (rotation Scenario.resting_on_C))
       = Some label
       /\ JS.index (options Scenario.reordered)
            (calculateIndexFromRotation (JS.length (options Scenario.reordered))
               (rotation (fst (reorderEffect Scenario.reordered Scenario.resting_on_C))))
          = Some label
       /\ rotation (fst (reorderEffect Scenario.reordered Scenario.resting_on_C))
          == rotation Scenario.resting_on_C
             - inject_Z (indexOf (options Scenario.reordered) label
                         - calculateIndexFromRotation
                             (JS.length (options Scenario.reordered))
                             (rotation Scenario.resting_on_C))
               * (360 / inject_Z (JS.length (options Scenario.reordered))).
Proof.
  assert (Permutation (prevOptionsRef Scenario.resting_on_C)
            (options Scenario.reordered)) as Hperm.
  { apply Permutation_sym.
    apply (Permutation_middle [str "A"; str "B"] [str "D"] (str "C")). }
  assert (options Scenario.reordered <> prevOptionsRef Scenario.resting_on_C) as Hne.
  { vm_compute. discriminate. }
  split; [vm_compute; discriminate|].
  split; [exact Hperm|].
  split; [exact Hne|].
  split; [reflexivity|].
  apply (reorder_keeps_pointed_label Scenario.reordered Scenario.resting_on_C).
  - vm_compute; discriminate.
  - exact Hperm.
  - exact Hne.
  - reflexivity.
Defined.

(** The operations on doubles, on inputs with exact results. *)
Example double_operations :
  Double.rem (-7.5) 2 = (-1.5)%float
  /\ Double.rem 7.5 (-2) = 1.5%float
  /\ Double.rem 2205 360 = 45%float
  /\ Double.floor (-7.5) = (-8)%float
  /\ Double.floor 7.5 = 7%float
  /\ Double.to_Z (Double.calculateIndexFromRotation 4 2205) = Some 3%Z
  /\ Double.to_Z (Double.calculateIndexFromRotation 4 1935) = Some 2%Z.
Proof. vm_compute. repeat split; reflexivity. Qed.

(** C4, on the numbers the code computes with.  A fresh wheel (angle 0) with
    the seven options A..G points at "A", at index 0.  When "A" is moved to
    index 3 the reorder effect turns the wheel by [-3 * (360 / 7)], in
    doubles to -154.28571428571428.  From that angle the inverse mapping
    computes [154.28571428571422 / 51.42857142857143], which is below 3: it
    finds index 2, and the label under the pointer is now "D", not "A". *)
Theorem reorder_loses_pointed_label_in_doubles :
  Permutation Scenario.seven Scenario.seven_moved
  /\ Double.at_index Scenario.seven (Double.calculateIndexFromRotation 7 0)
     = Some (str "A")
  /\ JS.indexOf Scenario.seven_moved (str "A") = 3%Z
  /\ Double.reorderRotation Scenario.seven_moved Scenario.seven false 0
     = (0 + - Double.of_Z 3 * (360 / Double.of_Z 7))%float
  /\ Double.reorderRotation Scenario.seven_moved Scenario.seven false 0
     = (-0x1.3492492492492p+7)%float
  /\ (Double.rem
        (360 - Double.rem
                 (Double.reorderRotation Scenario.seven_moved Scenario.seven
                    false 0) 360) 360
      / (360 / Double.of_Z 7) <? 3)%float = true
  /\ Double.to_Z
       (Double.calculateIndexFromRotation 7
          (Double.reorderRotation Scenario.seven_moved Scenario.seven false 0))
     = Some 2%Z
  /\ Double.at_index Scenario.seven_moved
       (Double.calculateIndexFromRotation 7
          (Double.reorderRotation Scenario.seven_moved Scenario.seven false 0))
     = Some (str "D")
  /\ str "D" <> str "A".
Proof.
  split.
  { unfold Scenario.seven, Scenario.seven_moved.
    apply (Permutation_cons_app [str "B"; str "C"; str "D"]
             [str "E"; str "F"; str "G"] (str "A")).
    apply Permutation_refl. }
  repeat split; try (vm_compute; reflexivity).
  vm_compute. discriminate.
Qed.

(** The worked reorder of the specification: the wheel rests on "C" at angle
    1935; in the order [CABD] it turns to 2115 and still points at "C". *)
Example reorder_ABCD_to_CABD :
  rotation (fst (reorderEffect Scenario.reordered Scenario.resting_on_C)) == 2115
  /\ JS.index Scenario.ABCD (calculateIndexFromRotation 4 1935) = Some (str "C")
  /\ JS.index Scenario.CABD (calculateIndexFromRotation 4 2115) = Some (str "C").
Proof. repeat split. Qed.

(** C5. [spin] called while a spin is in flight does nothing: the state
    (angle, spinning flag, selected index) is returned as it was, no call
    leaves the component (neither spin-started nor result), and no timer is
    scheduled. *)
Theorem spin_while_spinning_is_noop (p : Props) (st : State) (d : Draws) :
  isSpinning st = true -> spin p st d = (st, [], None).
Proof.
  intros H. unfold spin. now rewrite H.
Qed.

Lemma spin_while_spinning_is_noop_witness :
  isSpinning Scenario.in_flight = true
  /\ spin Scenario.wheel Scenario.in_flight Scenario.whole_turns
     = (Scenario.in_flight, [], None).
Proof.
  split; [reflexivity|].
  apply (spin_while_spinning_is_noop Scenario.wheel Scenario.in_flight
           Scenario.whole_turns).
  reflexivity.
Defined.

(** C6. With no option or a single option, [spin] does nothing: the state is
    returned as it was, no call leaves the component, and no timer is
    scheduled, so the settle callback (the only place where [spin] has the
    index computed) never runs.  [calculateIndexFromRotation] itself returns
    0 for an empty list without dividing. *)
Theorem spin_with_too_few_options_is_noop (p : Props) (st : State) (d : Draws) :
  JS.length (options p) = 0%Z \/ JS.length (options p) = 1%Z ->
  spin p st d = (st, [], None)
  /\ forall r, calculateIndexFromRotation 0 r = 0%Z.
Proof.
  intros H. split; [|reflexivity].
  unfold spin. destruct (isSpinning st); [reflexivity|].
  destruct (Z.ltb_spec (JS.length (options p)) 2); [reflexivity|lia].
Qed.

Lemma spin_with_too_few_options_is_noop_witness :
  (JS.length (options (mkProps [str "A"] true None)) = 0%Z
   \/ JS.length (options (mkProps [str "A"] true None)) = 1%Z)
  /\ (spin (mkProps [str "A"] true None) (init (mkProps [str "A"] true None))
        Scenario.whole_turns
      = (init (mkProps [str "A"] true None), [], None)
      /\ forall r, calculateIndexFromRotation 0 r = 0%Z).
Proof.
  split; [right; reflexivity|].
  apply (spin_with_too_few_options_is_noop (mkProps [str "A"] true None)
           (init (mkProps [str "A"] true None)) Scenario.whole_turns).
  right. reflexivity.
Defined.

(** C7. When the parent passes [onSpinStart]: a [spin] call that passes the
    busy guard and the [N >= 2] guard calls it exactly once, inside the call
    and before the animation is started; a [spin] call rejected by one of the
    guards makes no call at all. *)
Theorem spin_start_called_once (p : Props) (st : State) (d : Draws) :
  onSpinStart p = true ->
  (isSpinning st = false -> (2 <= JS.length (options p))%Z ->
   snd (fst (spin p st d))
   = [SpinStartCalled;
      AnimationStarted (totalRotationOf p st d)
        (animationDurationOf (prefersReducedMotion st) d)])
  /\ (isSpinning st = true \/ (JS.length (options p) < 2)%Z ->
      snd (fst (spin p st d)) = []).
Proof.
  intros Hcb. unfold spin. split.
  - intros Hidle Hn. rewrite Hidle, Hcb.
    destruct (Z.ltb_spec (JS.length (options p)) 2); [lia|reflexivity].
  - intros [Hbusy|Hn].
    + now rewrite Hbusy.
    + destruct (isSpinning st); [reflexivity|].
      destruct (Z.ltb_spec (JS.length (options p)) 2); [reflexivity|lia].
Qed.

Lemma spin_start_called_once_witness :
  onSpinStart Scenario.wheel = true
  /\ isSpinning (init Scenario.wheel) = false
  /\ (2 <= JS.length (options Scenario.wheel))%Z
  /\ snd (fst (spin Scenario.wheel (init Scenario.wheel) Scenario.whole_turns))
     = [SpinStartCalled;
        AnimationStarted
          (totalRotationOf Scenario.wheel (init Scenario.wheel) Scenario.whole_turns)
          (animationDurationOf (prefersReducedMotion (init Scenario.wheel))
             Scenario.whole_turns)].
Proof.
  split; [reflexivity|]. split; [reflexivity|].
  split; [vm_compute; discriminate|].
  apply (spin_start_called_once Scenario.wheel (init Scenario.wheel)
           Scenario.whole_turns).
  - reflexivity.
  - reflexivity.
  - vm_compute; discriminate.
Defined.

(** C8. A highlight request whose snapshot is not the current option list
    (same labels in the same order) is ignored: the state, with its angle
    and selected index, is returned as it was and no animation is started. *)
Theorem stale_highlight_ignored (p : Props) (st : State) (h : HistoryHighlight) :
  historyHighlight p = Some h ->
  hh_options h <> options p ->
  highlightEffect p st = (st, []).
Proof.
  intros Hh Hne. unfold highlightEffect. rewrite Hh.
  destruct (isSpinning st); [reflexivity|].
  destruct (eqb_requestId _ _); [reflexivity|].
  destruct (negb (JS.length (hh_options h) =? JS.length (options p))%Z
            || negb (every_matches (hh_options h) (options p) 0)) eqn:E;
    [reflexivity|].
  apply snapshot_test in E. contradiction.
Qed.

Lemma stale_highlight_ignored_witness :
  historyHighlight Scenario.stale = Some (mkHighlight Scenario.CABD 2 1)
  /\ hh_options (mkHighlight Scenario.CABD 2 1) <> options Scenario.stale
  /\ highlightEffect Scenario.stale Scenario.resting_on_C
     = (Scenario.resting_on_C, []).
Proof.
  split; [reflexivity|].
  split; [vm_compute; discriminate|].
  apply (stale_highlight_ignored Scenario.stale Scenario.resting_on_C
           (mkHighlight Scenario.CABD 2 1)).
  - reflexivity.
  - vm_compute; discriminate.
Defined.

(** C9 as stated fails while a spin is in flight: a request for the current
    list [ABCD] with index 9 and a fresh request id leaves the selected index
    empty instead of setting it to the clamped index 3. *)
Lemma highlight_ignored_while_spinning :
  historyHighlight Scenario.replaying = Some Scenario.replay
  /\ hh_options Scenario.replay = options Scenario.replaying
  /\ (2 <= JS.length (options Scenario.replaying))%Z
  /\ lastHistoryRequestIdRef Scenario.in_flight <> Some (hh_requestId Scenario.replay)
  /\ Z.min (Z.max (hh_index Scenario.replay) 0)
       (JS.length (options Scenario.replaying) - 1) = 3%Z
  /\ selectedIndex (fst (highlightEffect Scenario.replaying Scenario.in_flight))
     <> Some 3%Z
  /\ highlightEffect Scenario.replaying Scenario.in_flight = (Scenario.in_flight, []).
Proof.
  repeat split; try discriminate.
Qed.

(** An idle wheel answers a fresh request for its current list. *)
Lemma highlightEffect_idle (p : Props) (st : State) (h : HistoryHighlight) :
  historyHighlight p = Some h ->
  hh_options h = options p ->
  (2 <= JS.length (options p))%Z ->
  lastHistoryRequestIdRef st <> Some (hh_requestId h) ->
  isSpinning st = false ->
  selectedIndex (fst (highlightEffect p st))
  = Some (Z.min (Z.max (hh_index h) 0) (JS.length (options p) - 1))
  /\ lastHistoryRequestIdRef (fst (highlightEffect p st)) = Some (hh_requestId h)
  /\ exists delta : Q,
       rotation (fst (highlightEffect p st)) = rotation st + delta
       /\ snd (highlightEffect p st)
          = [AnimationStarted (rotation st + delta) (9 # 10)]
       /\ - (180) < delta /\ delta <= 180.
Proof.
  intros Hh Hsame Hn Hfresh Hidle. unfold highlightEffect.
  rewrite Hh, Hidle.
  destruct (eqb_requestId (lastHistoryRequestIdRef st) (hh_requestId h)) eqn:Eid.
  { unfold eqb_requestId in Eid.
    destruct (lastHistoryRequestIdRef st) as [r|]; [|discriminate].
    apply Z.eqb_eq in Eid. congruence. }
  rewrite (proj2 (snapshot_test (hh_options h) (options p)) Hsame).
  destruct (Z.ltb_spec (JS.length (options p)) 2) as [Hlt|_]; [lia|].
  cbn [fst snd selectedIndex lastHistoryRequestIdRef rotation].
  split; [reflexivity|]. split; [reflexivity|].
  eexists. split; [reflexivity|]. split; [reflexivity|].
  apply highlightDelta_range; lia.
Qed.

(** A request that arrives during a spin is kept unrecorded.  If its snapshot
    is still the current option list when the spin has settled, the run of
    the effect that follows the settle answers it. *)
Lemma highlight_answered_after_settle
  (p : Props) (st : State) (h : HistoryHighlight) (t : Timer) :
  historyHighlight p = Some h ->
  hh_options h = options p ->
  (2 <= JS.length (options p))%Z ->
  lastHistoryRequestIdRef st <> Some (hh_requestId h) ->
  selectedIndex (fst (highlightEffect p (fst (settle t st))))
  = Some (Z.min (Z.max (hh_index h) 0) (JS.length (options p) - 1)).
Proof.
  intros Hh Hsame Hn Hfresh.
  apply (highlightEffect_idle p (fst (settle t st)) h); auto.
Qed.

(** C9, amended. While no spin is in flight, a highlight request whose
    snapshot is the current option list of length [N >= 2] and whose request
    id was not handled before is answered even when its index is out of
    range: the selected index becomes [min (max index 0) (N - 1)], the
    request id is recorded, and the wheel turns by a delta in (-180, 180]. *)
Theorem highlight_clamps_index (p : Props) (st : State) (h : HistoryHighlight) :
  historyHighlight p = Some h ->
  hh_options h = options p ->
  (2 <= JS.length (options p))%Z ->
  lastHistoryRequestIdRef st <> Some (hh_requestId h) ->
  isSpinning st = false ->
  selectedIndex (fst (highlightEffect p st))
  = Some (Z.min (Z.max (hh_index h) 0) (JS.length (options p) - 1))
  /\ lastHistoryRequestIdRef (fst (highlightEffect p st)) = Some (hh_requestId h)
  /\ exists delta : Q,
       rotation (fst (highlightEffect p st)) = rotation st + delta
       /\ snd (highlightEffect p st)
          = [AnimationStarted (rotation st + delta) (9 # 10)]
       /\ - (180) < delta /\ delta <= 180.
Proof.
  intros Hh Hsame Hn Hfresh Hidle.
  destruct (highlightEffect_idle p st h Hh Hsame Hn Hfresh Hidle)
    as (Hsel & Hid & delta & Hrot & Hev & Hlo & Hhi).
  split; [exact Hsel|]. split; [exact Hid|].
  exists delta. repeat split; assumption.
Qed.

Lemma highlight_clamps_index_witness :
  historyHighlight Scenario.replaying = Some Scenario.replay
  /\ hh_options Scenario.replay = options Scenario.replaying
  /\ (2 <= JS.length (options Scenario.replaying))%Z
  /\ lastHistoryRequestIdRef Scenario.resting_on_C
     <> Some (hh_requestId Scenario.replay)
  /\ isSpinning Scenario.resting_on_C = false
  /\ selectedIndex (fst (highlightEffect Scenario.replaying Scenario.resting_on_C))
     = Some (Z.min (Z.max (hh_index Scenario.replay) 0)
               (JS.length (options Scenario.replaying) - 1))
  /\ lastHistoryRequestIdRef
       (fst (highlightEffect Scenario.replaying Scenario.resting_on_C))
     = Some (hh_requestId Scenario.replay)
  /\ exists delta : Q,
       rotation (fst (highlightEffect Scenario.replaying Scenario.resting_on_C))
       = rotation Scenario.resting_on_C + delta
       /\ snd (highlightEffect Scenario.replaying Scenario.resting_on_C)
          = [AnimationStarted (rotation Scenario.resting_on_C + delta) (9 # 10)]
       /\ - (180) < delta /\ delta <= 180.
Proof.
  split; [reflexivity|]. split; [reflexivity|].
  split; [vm_compute; discriminate|].
  split; [discriminate|]. split; [reflexivity|].
  apply (highlight_clamps_index Scenario.replaying Scenario.resting_on_C
           Scenario.replay).
  - reflexivity.
  - reflexivity.
  - vm_compute; discriminate.
  - discriminate.
  - reflexivity.
Defined.

(** A draw from the unit interval picks an index of the list. *)
Lemma targetIndex_range (opts : list jsstring) (d : Draws) :
  unit_interval (u_index d) -> (0 < JS.length opts)%Z ->
  (0 <= targetIndexOf opts d < JS.length opts)%Z.
Proof.
  intros [Hlo Hhi] Hn. unfold targetIndexOf, floor.
  pose proof (inject_Z_pos _ Hn) as Hq.
  apply Qfloor_range.
  - apply Qmult_le_0_compat; lra.
  - rewrite <- (Qmult_1_l (inject_Z (JS.length opts))) at 2.
    apply Qmult_lt_compat_r; assumption.
Qed.

(** The number of extra turns lies in [5, 7), or in [4, 5.5) under reduced
    motion. *)
Lemma spins_range (reduced : bool) (d : Draws) :
  unit_interval (u_spins d) ->
  (if reduced then 4 else 5) <= spinsOf reduced d
  /\ spinsOf reduced d < (if reduced then 11 # 2 else 7).
Proof.
  intros [Hlo Hhi]. unfold spinsOf. destruct reduced; split; lra.
Qed.

(** What an accepted spin does when it settles, over exact angles: the
    terminal angle becomes the rotation, the spinning flag is cleared, the
    selected index is the one the inverse mapping recovers from the terminal
    angle, it is an index of the list, and it is reported with its label. *)
Lemma settle_reports_pointed_index (p : Props) (st : State) (d : Draws) :
  isSpinning st = false ->
  (2 <= JS.length (options p))%Z ->
  exists (st1 : State) (evs : list Event) (t : Timer) (label : jsstring),
    spin p st d = (st1, evs, Some t)
    /\ t_totalRotation t = totalRotationOf p st d
    /\ rotation (fst (settle t st1)) = totalRotationOf p st d
    /\ isSpinning (fst (settle t st1)) = false
    /\ selectedIndex (fst (settle t st1))
       = Some (calculateIndexFromRotation (JS.length (options p))
                 (totalRotationOf p st d))
    /\ (0 <= calculateIndexFromRotation (JS.length (options p))
               (totalRotationOf p st d) < JS.length (options p))%Z
    /\ snd (settle t st1)
       = [RotateSet (totalRotationOf p st d);
          ResultCalled (Some label)
            (calculateIndexFromRotation (JS.length (options p))
               (totalRotationOf p st d))].
Proof.
  intros Hidle Hn.
  assert (0 <= calculateIndexFromRotation (JS.length (options p))
                 (totalRotationOf p st d) < JS.length (options p))%Z as Hr
    by (apply calculateIndex_range; lia).
  destruct (index_in_range (options p) _ Hr) as (label & Hlabel & _).
  unfold spin. rewrite Hidle.
  destruct (Z.ltb_spec (JS.length (options p)) 2) as [Hlt|_]; [lia|].
  do 3 eexists. exists label.
  split; [reflexivity|]. unfold settle. cbn [t_totalRotation t_options fst snd
    rotation isSpinning selectedIndex].
  rewrite Hlabel. repeat split; try reflexivity; apply Hr.
Qed.

(** Whole turns do not move the pointer. *)
Lemma calculateIndex_whole_turns (n k : Z) (r r' : Q) :
  (0 < n)%Z -> r' == r + 360 * inject_Z k ->
  calculateIndexFromRotation n r' = calculateIndexFromRotation n r.
Proof.
  intros Hn Hr'.
  rewrite (calculateIndex_shift n (- (n * k)) r r' Hn).
  - pose proof (calculateIndex_range n r Hn).
    replace (calculateIndexFromRotation n r + - (n * k))%Z
      with (calculateIndexFromRotation n r + (- k) * n)%Z by lia.
    rewrite Z.mod_add by lia. apply Z.mod_small. lia.
  - pose proof (inject_Z_pos n Hn).
    rewrite Hr', inject_Z_opp, inject_Z_mult. field. lra.
Qed.

(** Had a spin a whole number of extra turns, it would settle on the target
    index moved by [floor ((2 - N) / 4)] slices. *)
Lemma settle_index_whole_turns (p : Props) (st : State) (d : Draws) (turns : Z) :
  (2 <= JS.length (options p))%Z ->
  (0 <= targetIndexOf (options p) d < JS.length (options p))%Z ->
  spinsOf (prefersReducedMotion st) d == inject_Z turns ->
  calculateIndexFromRotation (JS.length (options p)) (totalRotationOf p st d)
  = ((targetIndexOf (options p) d + (2 - JS.length (options p)) / 4)
       mod JS.length (options p))%Z.
Proof.
  intros Hn Hi Hturns.
  set (n := JS.length (options p)) in *.
  set (i := targetIndexOf (options p) d) in *.
  destruct (targetRotation_range n i) as [Ht0 Ht1]; [lia|lia|].
  destruct (deltaRotation_forward (targetRotationOf n i) (rotation st) Ht0 Ht1)
    as (_ & _ & k & Ek).
  rewrite <- (roundtrip_offset n i) by lia.
  apply (calculateIndex_whole_turns n (k + turns)); [lia|].
  unfold totalRotationOf. fold n. fold i.
  rewrite inject_Z_plus, Hturns. lra.
Qed.

(** X3. For three options or more the inverse mapping never recovers the target
    index from its target rotation; for two options it always does. *)
Lemma roundtrip_only_for_two (n i : Z) :
  (0 <= i < n)%Z ->
  ((3 <= n)%Z -> calculateIndexFromRotation n (targetRotationOf n i) <> i)
  /\ (n = 2%Z -> calculateIndexFromRotation n (targetRotationOf n i) = i).
Proof.
  intros Hi. split.
  - intros Hn. rewrite roundtrip_offset by lia.
    assert (- n < (2 - n) / 4 <= -1)%Z as Hc.
    { pose proof (Z.div_mod (2 - n) 4) as Hdm.
      pose proof (Z.mod_pos_bound (2 - n) 4) as Hmb. lia. }
    intros Heq.
    destruct (Z_lt_le_dec (i + (2 - n) / 4) 0) as [Hneg|Hpos].
    + rewrite <- (Z.mod_add _ 1 n) in Heq by lia.
      rewrite Z.mod_small in Heq by lia. lia.
    + rewrite Z.mod_small in Heq by lia. lia.
  - intros ->. rewrite roundtrip_offset by lia.
    change ((2 - 2) / 4)%Z with 0%Z. rewrite Z.add_0_r. apply Z.mod_small. lia.
Qed.

(** C2 on the code, at four options and target index 0: the target rotation
    is 45 degrees and the inverse mapping recovers index 3 from it. *)
Theorem roundtrip_misses_target :
  targetRotationOf 4 0 == 45
  /\ calculateIndexFromRotation 4 (targetRotationOf 4 0) = 3%Z.
Proof. split; reflexivity. Qed.

(** The worked example of the specification, target index 2 of four options:
    the target rotation is 225 degrees and the recovered index is 1. *)
Example roundtrip_target_2_of_4 :
  targetRotationOf 4 2 == 225
  /\ calculateIndexFromRotation 4 (targetRotationOf 4 2) = 1%Z.
Proof. split; reflexivity. Qed.

(** C3 on the code, with the draw 0.25 for the number of turns: the spin
    makes five and a half extra turns, the terminal angle is
    [0 + 360 * 5.5 + 45 = 2025], and it differs from the target rotation 45
    by no whole number of turns. *)
Theorem fractional_turns_miss_target_rotation :
  spinsOf false Scenario.half_turn == 11 # 2
  /\ targetRotationOf 4 (targetIndexOf Scenario.ABCD Scenario.half_turn) == 45
  /\ deltaRotationOf 45 (rotation (init Scenario.wheel)) == 45
  /\ totalRotationOf Scenario.wheel (init Scenario.wheel) Scenario.half_turn == 2025
  /\ ~ (exists k : Z,
         totalRotationOf Scenario.wheel (init Scenario.wheel) Scenario.half_turn
         == targetRotationOf 4 (targetIndexOf Scenario.ABCD Scenario.half_turn)
            + 360 * inject_Z k).
Proof.
  assert (totalRotationOf Scenario.wheel (init Scenario.wheel) Scenario.half_turn
          == 2025) as Etotal by reflexivity.
  assert (targetRotationOf 4 (targetIndexOf Scenario.ABCD Scenario.half_turn)
          == 45) as Etarget by reflexivity.
  repeat split; try assumption.
  intros [k H]. rewrite Etotal, Etarget in H. clear Etotal Etarget.
  assert (inject_Z (2 * k) == inject_Z 11) as Hk.
  { rewrite inject_Z_mult. change (inject_Z 2) with 2.
    change (inject_Z 11) with 11. lra. }
  apply (proj1 (inject_Z_injective (2 * k) 11)) in Hk. lia.
Qed.

(** C1 on the code, at [ABCD] from angle 0 with target index 0 and six whole
    extra turns: the spin is accepted, the terminal angle 2205 is stored, and
    the index recovered at settle is 3, so "D" is reported and not the
    target "A". *)
Theorem settle_misses_target :
  exists (st1 : State) (evs : list Event) (t : Timer),
    spin Scenario.wheel (init Scenario.wheel) Scenario.whole_turns
    = (st1, evs, Some t)
    /\ targetIndexOf Scenario.ABCD Scenario.whole_turns = 0%Z
    /\ t_totalRotation t == 2205
    /\ rotation (fst (settle t st1)) = t_totalRotation t
    /\ selectedIndex (fst (settle t st1)) = Some 3%Z
    /\ snd (settle t st1)
       = [RotateSet (t_totalRotation t); ResultCalled (Some (str "D")) 3].
Proof.
  do 3 eexists. split; [reflexivity|]. repeat split.
Qed.

End Wheel.

(** ** The option editor *)

Section Editor.

Import OptionEditor.

Lemma includes_In (l : list jsstring) (x : jsstring) :
  includes l x = true <-> In x l.
Proof.
  unfold includes. rewrite existsb_exists. split.
  - intros (y & Hin & E). apply jsstring_eqb_eq in E. now subst.
  - intros Hin. exists x. split; [exact Hin|]. now apply jsstring_eqb_eq.
Qed.

(** What the parent holds after [onChange(next)] with a non-empty [next]. *)
Lemma onChange_options (next : list jsstring) (app : App.State) :
  next <> [] -> App.options (App.onChange next app) = next.
Proof.
  intros Hne. unfold App.onChange, App.applyOptions.
  destruct (Z.eqb_spec (JS.length next) 0) as [E|_].
  { destruct next; [congruence|]. unfold JS.length in E. simpl in E. lia. }
  destruct (jsstring_list_eqb (App.options app) next) eqn:E; [|reflexivity].
  now apply jsstring_list_eqb_eq in E.
Qed.

Lemma optionsAfter_unchanged (options : list jsstring) (st : State) :
  optionsAfter options (st, []) = options.
Proof. reflexivity. Qed.

Lemma optionsAfter_toast (options : list jsstring) (st : State) (t : Toast) :
  optionsAfter options (st, [ToastShown t]) = options.
Proof. reflexivity. Qed.

Lemma optionsAfter_changed (options next : list jsstring) (st : State) :
  next <> [] -> optionsAfter options (st, [Changed next]) = next.
Proof.
  intros Hne. unfold optionsAfter, deliver. simpl. now apply onChange_options.
Qed.

(** [filter_other] drops the element at [index] and nothing else. *)
Lemma filter_other_outside (l : list jsstring) (index i : Z) :
  (index < i)%Z -> filter_other l index i = l.
Proof.
  revert i. induction l as [|x l IH]; intros i Hi; [reflexivity|].
  simpl. destruct (Z.eqb_spec i index); [lia|].
  rewrite IH by lia. reflexivity.
Qed.

Lemma filter_other_In (l : list jsstring) (index i : Z) (x : jsstring) :
  In x (filter_other l index i) -> In x l.
Proof.
  revert i. induction l as [|y l IH]; intros i; simpl; [tauto|].
  destruct (Z.eqb_spec i index); simpl; intros H.
  - right. eapply IH; eauto.
  - destruct H as [H|H]; [now left|right; eapply IH; eauto].
Qed.

Lemma filter_other_NoDup (l : list jsstring) (index i : Z) :
  NoDup l -> NoDup (filter_other l index i).
Proof.
  revert i. induction l as [|y l IH]; intros i Hnd; simpl; [constructor|].
  inversion Hnd as [|? ? Hnotin Hnd']; subst.
  destruct (Z.eqb_spec i index).
  - now apply IH.
  - constructor; [|now apply IH].
    intros Hin. apply Hnotin. eapply filter_other_In; eauto.
Qed.

Lemma filter_other_length (l : list jsstring) (index i : Z) :
  (i <= index < i + JS.length l)%Z ->
  JS.length (filter_other l index i) = (JS.length l - 1)%Z.
Proof.
  unfold JS.length. revert i.
  induction l as [|y l IH]; intros i Hi; simpl List.length in *; [lia|].
  simpl filter_other. destruct (Z.eqb_spec i index).
  - rewrite filter_other_outside by lia. lia.
  - simpl List.length. rewrite Nat2Z.inj_succ, IH by lia. lia.
Qed.

(** [assign] keeps the length and only introduces the assigned value. *)
Lemma assign_outside (l : list jsstring) (index : Z) (v : jsstring) (i : Z) :
  (index < i)%Z -> assign l index v i = l.
Proof.
  revert i. induction l as [|x l IH]; intros i Hi; [reflexivity|].
  simpl. destruct (Z.eqb_spec i index); [lia|].
  rewrite IH by lia. reflexivity.
Qed.

Lemma assign_length (l : list jsstring) (index : Z) (v : jsstring) (i : Z) :
  List.length (assign l index v i) = List.length l.
Proof.
  revert i. induction l as [|x l IH]; intros i; simpl; [reflexivity|].
  now rewrite IH.
Qed.

Lemma assign_In (l : list jsstring) (index : Z) (v : jsstring) (i : Z) (x : jsstring) :
  In x (assign l index v i) -> x = v \/ In x l.
Proof.
  revert i. induction l as [|y l IH]; intros i; simpl; [tauto|].
  intros [H|H].
  - destruct (Z.eqb_spec i index); [left; congruence|right; left; exact H].
  - destruct (IH _ H); tauto.
Qed.

Lemma some_other_outside (l : list jsstring) (v : jsstring) (index i : Z) :
  (index < i)%Z -> some_other l v index i = false -> ~ In v l.
Proof.
  revert i. induction l as [|x l IH]; intros i Hi H; simpl in *; [tauto|].
  apply orb_false_iff in H. destruct H as [Hx Hrest].
  destruct (Z.eqb_spec i index); [lia|]. simpl in Hx.
  rewrite andb_true_r in Hx.
  intros [E|Hin].
  - subst x. rewrite (proj2 (jsstring_eqb_eq v v) eq_refl) in Hx. discriminate.
  - apply (IH (i + 1)%Z); [lia|exact Hrest|exact Hin].
Qed.

Lemma assign_NoDup (l : list jsstring) (index : Z) (v : jsstring) (i : Z) :
  NoDup l -> some_other l v index i = false -> NoDup (assign l index v i).
Proof.
  revert i. induction l as [|x l IH]; intros i Hnd H; simpl; [constructor|].
  inversion Hnd as [|? ? Hnotin Hnd']; subst.
  simpl in H. apply orb_false_iff in H. destruct H as [Hx Hrest].
  destruct (Z.eqb_spec i index) as [E|E].
  - rewrite assign_outside by lia.
    constructor; [|exact Hnd'].
    eapply some_other_outside; [|exact Hrest]. lia.
  - simpl in Hx. rewrite andb_true_r in Hx.
    constructor; [|now apply IH].
    intros Hin. apply assign_In in Hin. destruct Hin as [->|Hin]; [|tauto].
    rewrite (proj2 (jsstring_eqb_eq v v) eq_refl) in Hx. discriminate.
Qed.

Lemma some_other_found (l : list jsstring) (v : jsstring) (index i : Z) (k : nat) :
  nth_error l k = Some v -> (i + Z.of_nat k)%Z <> index ->
  some_other l v index i = true.
Proof.
  revert i k. induction l as [|x l IH]; intros i [|k] Hk Hne; simpl in *;
    try discriminate.
  - injection Hk as ->. rewrite (proj2 (jsstring_eqb_eq v v) eq_refl).
    destruct (Z.eqb_spec i index); [lia|reflexivity].
  - rewrite (IH (i + 1)%Z k Hk) by lia. apply orb_true_r.
Qed.

Lemma valid_nonempty (l : list jsstring) : valid l -> l <> [].
Proof.
  intros [[Hlo _] _] ->. unfold JS.length in Hlo. simpl in Hlo. lia.
Qed.

Lemma addOption_valid (options : list jsstring) (st : State) :
  valid options -> valid (optionsAfter options (addOption options st)).
Proof.
  intros Hv. unfold addOption.
  destruct (isProcessingAddRef st); [exact Hv|].
  destruct (isEmpty (trim (newOption st))); [exact Hv|].
  rewrite Z.geb_leb.
  destruct (Z.leb_spec 12 (JS.length options)) as [Hfull|Hroom]; [exact Hv|].
  destruct (includes options (trim (newOption st))) eqn:Einc; [exact Hv|].
  rewrite optionsAfter_changed by (now destruct options).
  destruct Hv as [[Hlo Hhi] Hnd]. split.
  - unfold JS.length in *. rewrite length_app. simpl. lia.
  - apply (Permutation_NoDup (Permutation_cons_append options (trim (newOption st)))).
    constructor; [|exact Hnd].
    intros Hin. apply includes_In in Hin. congruence.
Qed.

Lemma removeOption_valid (options : list jsstring) (index : Z) (st : State) :
  valid options -> valid (optionsAfter options (removeOption options index st)).
Proof.
  intros Hv. unfold removeOption. rewrite Z.gtb_ltb, Z.geb_leb.
  destruct (Z.ltb_spec 2 (JS.length options)) as [Hbig|_]; [|exact Hv].
  destruct (Z.leb_spec 0 index) as [Hlo|_]; [|exact Hv].
  destruct (Z.ltb_spec index (JS.length options)) as [Hhi|_]; [|exact Hv].
  cbn [andb].
  assert (valid (filter_other options index 0)) as Hv'.
  { destruct Hv as [[H2 H12] Hnd]. split.
    - rewrite filter_other_length by lia. lia.
    - now apply filter_other_NoDup. }
  rewrite optionsAfter_changed by (now apply valid_nonempty). exact Hv'.
Qed.

Lemma saveEdit_valid (options : list jsstring) (st : State) :
  valid options -> valid (optionsAfter options (saveEdit options st)).
Proof.
  intros Hv. unfold saveEdit.
  destruct (editingIndex st) as [ei|]; [|exact Hv].
  destruct (negb (isEmpty (trim (editValue st))) && (ei >=? 0)%Z
            && (ei <? JS.length options)%Z); [|exact Hv].
  destruct (some_other options (trim (editValue st)) ei 0) eqn:Eother; [exact Hv|].
  assert (valid (assign options ei (trim (editValue st)) 0)) as Hv'.
  { destruct Hv as [Hlen Hnd]. split.
    - unfold JS.length in *. now rewrite assign_length.
    - now apply assign_NoDup. }
  rewrite optionsAfter_changed by (now apply valid_nonempty). exact Hv'.
Qed.

(** C10. The option editor keeps a list of 2 to 12 pairwise distinct labels
    such: the list the parent holds after [addOption], after [removeOption]
    at any index and after [saveEdit] is again valid.  [addOption] does not
    call [onChange] when the list already has 12 entries or contains the
    trimmed label, [removeOption] does not when the list has 2 entries, and
    [saveEdit] does not when the trimmed label stands at another position. *)
Theorem editor_keeps_options_valid (options : list jsstring) (st : State) :
  valid options ->
  valid (optionsAfter options (addOption options st))
  /\ (forall index : Z,
        valid (optionsAfter options (removeOption options index st)))
  /\ valid (optionsAfter options (saveEdit options st))
  /\ ((12 <= JS.length options)%Z \/ In (trim (newOption st)) options ->
      forall next, ~ In (Changed next) (snd (addOption options st)))
  /\ ((JS.length options <= 2)%Z ->
      forall index next,
        ~ In (Changed next) (snd (removeOption options index st)))
  /\ (forall ei other : Z,
        editingIndex st = Some ei -> other <> ei ->
        JS.index options other = Some (trim (editValue st)) ->
        forall next, ~ In (Changed next) (snd (saveEdit options st))).
Proof.
  intros Hv. split; [now apply addOption_valid|].
  split; [intros index; now apply removeOption_valid|].
  split; [now apply saveEdit_valid|].
  split; [|split].
  - intros Hrefuse next. unfold addOption.
    destruct (isProcessingAddRef st); [intros []|].
    destruct (isEmpty (trim (newOption st))); [intros []|].
    rewrite Z.geb_leb.
    destruct (Z.leb_spec 12 (JS.length options)) as [Hfull|Hroom].
    { intros [H|[]]. discriminate. }
    destruct (includes options (trim (newOption st))) eqn:Einc.
    { intros [H|[]]. discriminate. }
    destruct Hrefuse as [H12|Hin]; [lia|].
    apply includes_In in Hin. congruence.
  - intros Hsmall index next. unfold removeOption. rewrite Z.gtb_ltb.
    destruct (Z.ltb_spec 2 (JS.length options)) as [Hbig|_]; [lia|].
    intros [].
  - intros ei other Hei Hne Hother next. unfold saveEdit. rewrite Hei.
    destruct (negb (isEmpty (trim (editValue st))) && (ei >=? 0)%Z
              && (ei <? JS.length options)%Z); [|intros []].
    unfold JS.index in Hother.
    destruct (Z.ltb_spec other 0) as [|Hpos]; [discriminate|].
    rewrite (some_other_found options (trim (editValue st)) ei 0 _ Hother) by lia.
    intros [].
Qed.

Lemma editor_keeps_options_valid_witness :
  valid Scenario.ABCD
  /\ valid (optionsAfter Scenario.ABCD (addOption Scenario.ABCD Scenario.editing))
  /\ (forall index : Z,
        valid (optionsAfter Scenario.ABCD
                 (removeOption Scenario.ABCD index Scenario.editing)))
  /\ valid (optionsAfter Scenario.ABCD (saveEdit Scenario.ABCD Scenario.editing))
  /\ ((12 <= JS.length Scenario.ABCD)%Z
      \/ In (trim (newOption Scenario.editing)) Scenario.ABCD ->
      forall next, ~ In (Changed next) (snd (addOption Scenario.ABCD Scenario.editing)))
  /\ ((JS.length Scenario.ABCD <= 2)%Z ->
      forall index next,
        ~ In (Changed next)
            (snd (removeOption Scenario.ABCD index Scenario.editing)))
  /\ (forall ei other : Z,
        editingIndex Scenario.editing = Some ei -> other <> ei ->
        JS.index Scenario.ABCD other = Some (trim (editValue Scenario.editing)) ->
        forall next,
          ~ In (Changed next) (snd (saveEdit Scenario.ABCD Scenario.editing))).
Proof.
  assert (valid Scenario.ABCD) as Hv.
  { split; [vm_compute; split; discriminate|].
    repeat constructor; simpl; intuition discriminate. }
  split; [exact Hv|].
  apply (editor_keeps_options_valid Scenario.ABCD Scenario.editing Hv).
Defined.

(** The editor at work on [ABCD]: a new label is trimmed and appended, the
    entry at index 1 is removed, the entry at index 2 is renamed. *)
Example editor_on_ABCD :
  optionsAfter Scenario.ABCD (addOption Scenario.ABCD Scenario.editing)
  = Scenario.ABCD ++ [str "E"]
  /\ optionsAfter Scenario.ABCD (removeOption Scenario.ABCD 1 Scenario.editing)
     = [str "A"; str "C"; str "D"]
  /\ optionsAfter Scenario.ABCD (saveEdit Scenario.ABCD Scenario.editing)
     = [str "A"; str "B"; str "Z"; str "D"].
Proof. repeat split. Qed.

End Editor.

(** ** More on the wheel: geometry, spins, effects *)

Section WheelBehaviour.

(** X5. An accepted spin turns the wheel forward by at least 5 and less than 8
    whole turns (at least 4 and less than 6.5 under reduced motion). *)
Theorem spin_turns_forward (p : Props) (st : State) (d : Draws) :
  unit_interval (u_index d) -> unit_interval (u_spins d) ->
  (2 <= JS.length (options p))%Z ->
  rotation st + (if prefersReducedMotion st then 4 else 5) * 360
  <= totalRotationOf p st d
  /\ totalRotationOf p st d
     < rotation st + (if prefersReducedMotion st then 13 # 2 else 8) * 360.
Proof.
  intros Hu Hs Hn.
  assert (0 <= targetIndexOf (options p) d < JS.length (options p))%Z as Hi
    by (apply targetIndex_range; [exact Hu|lia]).
  assert (0 < JS.length (options p))%Z as Hpos by lia.
  destruct (targetRotation_range _ _ Hpos Hi) as [Ht0 Ht1].
  destruct (deltaRotation_forward _ (rotation st) Ht0 Ht1) as (Hd0 & Hd1 & _).
  unfold totalRotationOf. cbv zeta.
  destruct (prefersReducedMotion st).
  - destruct (spins_range true d Hs) as [Hs0 Hs1]. split; lra.
  - destruct (spins_range false d Hs) as [Hs0 Hs1]. split; lra.
Qed.

Lemma spin_turns_forward_witness :
  unit_interval (u_index Scenario.half_turn)
  /\ unit_interval (u_spins Scenario.half_turn)
  /\ (2 <= JS.length (options Scenario.wheel))%Z
  /\ rotation Scenario.resting_on_C
       + (if prefersReducedMotion Scenario.resting_on_C then 4 else 5) * 360
     <= totalRotationOf Scenario.wheel Scenario.resting_on_C Scenario.half_turn
  /\ totalRotationOf Scenario.wheel Scenario.resting_on_C Scenario.half_turn
     < rotation Scenario.resting_on_C
       + (if prefersReducedMotion Scenario.resting_on_C then 13 # 2 else 8) * 360.
Proof.
  assert (unit_interval (u_index Scenario.half_turn)) as H1.
  { split; [vm_compute; discriminate|reflexivity]. }
  assert (unit_interval (u_spins Scenario.half_turn)) as H2.
  { split; [vm_compute; discriminate|reflexivity]. }
  assert (2 <= JS.length (options Scenario.wheel))%Z as H3
    by (vm_compute; discriminate).
  split; [exact H1|]. split; [exact H2|]. split; [exact H3|].
  apply (spin_turns_forward Scenario.wheel Scenario.resting_on_C
           Scenario.half_turn H1 H2 H3).
Defined.

(** X6. An accepted spin starts one animation of 3.3 to 3.8 seconds (2.4 to 2.7
    under reduced motion) and schedules its settle timer after exactly that
    time, in milliseconds. *)
Theorem spin_animation_and_timer (p : Props) (st : State) (d : Draws) :
  unit_interval (u_jitter d) ->
  isSpinning st = false ->
  (2 <= JS.length (options p))%Z ->
  exists (st1 : State) (evs : list Event) (t : Timer) (duration : Q),
    spin p st d = (st1, evs, Some t)
    /\ In (AnimationStarted (t_totalRotation t) duration) evs
    /\ t_delay t = duration * 1000
    /\ (if prefersReducedMotion st then 24 # 10 else 33 # 10) <= duration
    /\ duration < (if prefersReducedMotion st then 27 # 10 else 38 # 10)
    /\ isSpinning st1 = true /\ selectedIndex st1 = None
    /\ rotation st1 = rotation st.
Proof.
  intros [Hj0 Hj1] Hidle Hn. unfold spin. rewrite Hidle.
  destruct (Z.ltb_spec (JS.length (options p)) 2) as [Hlt|_]; [lia|].
  do 3 eexists. exists (animationDurationOf (prefersReducedMotion st) d).
  split; [reflexivity|]. cbn [t_totalRotation t_delay isSpinning selectedIndex rotation].
  split; [apply in_or_app; right; left; reflexivity|].
  split; [reflexivity|].
  unfold animationDurationOf.
  destruct (prefersReducedMotion st); repeat split; lra.
Qed.

Lemma spin_animation_and_timer_witness :
  unit_interval (u_jitter Scenario.whole_turns)
  /\ isSpinning (init Scenario.wheel) = false
  /\ (2 <= JS.length (options Scenario.wheel))%Z
  /\ exists (st1 : State) (evs : list Event) (t : Timer) (duration : Q),
       spin Scenario.wheel (init Scenario.wheel) Scenario.whole_turns
       = (st1, evs, Some t)
       /\ In (AnimationStarted (t_totalRotation t) duration) evs
       /\ t_delay t = duration * 1000
       /\ (if prefersReducedMotion (init Scenario.wheel) then 24 # 10 else 33 # 10)
          <= duration
       /\ duration
          < (if prefersReducedMotion (init Scenario.wheel) then 27 # 10 else 38 # 10)
       /\ isSpinning st1 = true /\ selectedIndex st1 = None
       /\ rotation st1 = rotation (init Scenario.wheel).
Proof.
  assert (unit_interval (u_jitter Scenario.whole_turns)) as H1.
  { split; [vm_compute; discriminate|reflexivity]. }
  assert (2 <= JS.length (options Scenario.wheel))%Z as H3
    by (vm_compute; discriminate).
  split; [exact H1|]. split; [reflexivity|]. split; [exact H3|].
  apply (spin_animation_and_timer Scenario.wheel (init Scenario.wheel)
           Scenario.whole_turns H1 eq_refl H3).
Defined.

(** X7. Between an accepted spin and its settle every further [spin] call is
    ignored, whatever its props and draws: it changes no state, reports
    nothing and starts no timer.  The settle makes the wheel idle again, and
    the next [spin] on a list of two options or more is accepted. *)
Theorem spin_gate (p : Props) (st : State) (d : Draws) :
  isSpinning st = false ->
  (2 <= JS.length (options p))%Z ->
  exists (st1 : State) (evs : list Event) (t : Timer),
    spin p st d = (st1, evs, Some t)
    /\ (forall (p' : Props) (d' : Draws), spin p' st1 d' = (st1, [], None))
    /\ isSpinning (fst (settle t st1)) = false
    /\ forall (p' : Props) (d' : Draws),
         (2 <= JS.length (options p'))%Z ->
         exists (st2 : State) (evs' : list Event) (t' : Timer),
           spin p' (fst (settle t st1)) d' = (st2, evs', Some t').
Proof.
  intros Hidle Hn. unfold spin at 1. rewrite Hidle.
  destruct (Z.ltb_spec (JS.length (options p)) 2) as [Hlt|_]; [lia|].
  do 3 eexists. split; [reflexivity|].
  split; [intros p' d'; reflexivity|]. split; [reflexivity|].
  intros p' d' Hn'. unfold spin, settle. cbn [fst isSpinning].
  destruct (Z.ltb_spec (JS.length (options p')) 2) as [Hlt|_]; [lia|].
  do 3 eexists. reflexivity.
Qed.

Lemma spin_gate_witness :
  isSpinning (init Scenario.wheel) = false
  /\ (2 <= JS.length (options Scenario.wheel))%Z
  /\ exists (st1 : State) (evs : list Event) (t : Timer),
       spin Scenario.wheel (init Scenario.wheel) Scenario.whole_turns
       = (st1, evs, Some t)
       /\ (forall (p' : Props) (d' : Draws), spin p' st1 d' = (st1, [], None))
       /\ isSpinning (fst (settle t st1)) = false
       /\ forall (p' : Props) (d' : Draws),
            (2 <= JS.length (options p'))%Z ->
            exists (st2 : State) (evs' : list Event) (t' : Timer),
              spin p' (fst (settle t st1)) d' = (st2, evs', Some t').
Proof.
  assert (2 <= JS.length (options Scenario.wheel))%Z as H2
    by (vm_compute; discriminate).
  split; [reflexivity|]. split; [exact H2|].
  apply (spin_gate Scenario.wheel (init Scenario.wheel) Scenario.whole_turns
           eq_refl H2).
Defined.

(** X4. What an accepted spin does when it settles: the rotation becomes the
    angle the animation was started towards, the spinning flag is cleared,
    the selected index is an index of the option list of the spin, and one
    result is reported, after the angle is set: that index together with the
    label the list holds at it. *)
Theorem settle_reports_selected_label (p : Props) (st : State) (d : Draws) :
  isSpinning st = false ->
  (2 <= JS.length (options p))%Z ->
  exists (st1 : State) (evs : list Event) (t : Timer) (idx : Z)
         (label : jsstring),
    spin p st d = (st1, evs, Some t)
    /\ In (AnimationStarted (t_totalRotation t)
             (animationDurationOf (prefersReducedMotion st) d)) evs
    /\ t_options t = options p
    /\ rotation (fst (settle t st1)) = t_totalRotation t
    /\ isSpinning (fst (settle t st1)) = false
    /\ selectedIndex (fst (settle t st1)) = Some idx
    /\ (0 <= idx < JS.length (options p))%Z
    /\ JS.index (options p) idx = Some label
    /\ snd (settle t st1)
       = [RotateSet (t_totalRotation t); ResultCalled (Some label) idx].
Proof.
  intros Hidle Hn.
  assert (0 <= calculateIndexFromRotation (JS.length (options p))
                 (totalRotationOf p st d) < JS.length (options p))%Z as Hr
    by (apply calculateIndex_range; lia).
  destruct (index_in_range (options p) _ Hr) as (label & Hlabel & _).
  unfold spin. rewrite Hidle.
  destruct (Z.ltb_spec (JS.length (options p)) 2) as [Hlt|_]; [lia|].
  do 3 eexists.
  exists (calculateIndexFromRotation (JS.length (options p))
            (totalRotationOf p st d)), label.
  split; [reflexivity|]. unfold settle. cbn [t_totalRotation t_options fst snd
    rotation isSpinning selectedIndex].
  rewrite Hlabel.
  split; [apply in_or_app; right; left; reflexivity|].
  repeat split; try reflexivity; solve [apply Hr | exact Hlabel].
Qed.

Lemma settle_reports_selected_label_witness :
  isSpinning (init Scenario.wheel) = false
  /\ (2 <= JS.length (options Scenario.wheel))%Z
  /\ exists (st1 : State) (evs : list Event) (t : Timer) (idx : Z)
            (label : jsstring),
       spin Scenario.wheel (init Scenario.wheel) Scenario.half_turn
       = (st1, evs, Some t)
       /\ In (AnimationStarted (t_totalRotation t)
                (animationDurationOf
                   (prefersReducedMotion (init Scenario.wheel))
                   Scenario.half_turn)) evs
       /\ t_options t = options Scenario.wheel
       /\ rotation (fst (settle t st1)) = t_totalRotation t
       /\ isSpinning (fst (settle t st1)) = false
       /\ selectedIndex (fst (settle t st1)) = Some idx
       /\ (0 <= idx < JS.length (options Scenario.wheel))%Z
       /\ JS.index (options Scenario.wheel) idx = Some label
       /\ snd (settle t st1)
          = [RotateSet (t_totalRotation t); ResultCalled (Some label) idx].
Proof.
  assert (2 <= JS.length (options Scenario.wheel))%Z as H2
    by (vm_compute; discriminate).
  split; [reflexivity|]. split; [exact H2|].
  apply (settle_reports_selected_label Scenario.wheel (init Scenario.wheel)
           Scenario.half_turn eq_refl H2).
Defined.

(** X9. A highlight request is handled at most once: whatever the first run of
    the effect did, a second run with the same props changes nothing and
    starts no animation. *)
Theorem highlight_handled_once (p : Props) (st : State) :
  highlightEffect p (fst (highlightEffect p st))
  = (fst (highlightEffect p st), []).
Proof.
  unfold highlightEffect.
  destruct (historyHighlight p) as [h|]; [|reflexivity].
  destruct (isSpinning st) eqn:Espin; cbn [fst]; [now rewrite Espin|].
  destruct (eqb_requestId (lastHistoryRequestIdRef st) (hh_requestId h)) eqn:Eid;
    cbn [fst]; [now rewrite Espin, Eid|].
  destruct (negb (JS.length (hh_options h) =? JS.length (options p))%Z
            || negb (every_matches (hh_options h) (options p) 0)) eqn:Esnap;
    cbn [fst]; [now rewrite Espin, Eid|].
  destruct (JS.length (options p) <? 2)%Z eqn:Elen;
    cbn [fst]; [now rewrite Espin, Eid|].
  cbn [isSpinning lastHistoryRequestIdRef].
  unfold eqb_requestId. now rewrite Z.eqb_refl.
Qed.

(** X10. Whatever the first run of the reorder effect did, a second run with the
    same props starts no animation and leaves the angle as it is. *)
Theorem reorder_effect_runs_once (p : Props) (st : State) :
  snd (reorderEffect p (fst (reorderEffect p st))) = []
  /\ rotation (fst (reorderEffect p (fst (reorderEffect p st))))
     = rotation (fst (reorderEffect p st)).
Proof.
  assert (forall s : State,
            prevOptionsRef s = options p ->
            snd (reorderEffect p s) = []
            /\ rotation (fst (reorderEffect p s)) = rotation s) as Hquiet.
  { intros s Hs. unfold reorderEffect.
    destruct (JS.length (options p) <? 2)%Z; [split; reflexivity|].
    rewrite Hs, Z.eqb_refl, (proj2 (jsstring_list_eqb_eq _ _) eq_refl).
    split; reflexivity. }
  unfold reorderEffect at 2 4 5.
  destruct (JS.length (options p) <? 2)%Z eqn:Elen.
  - cbn [fst]. unfold reorderEffect. rewrite Elen. split; reflexivity.
  - destruct ((JS.length (options p) =? JS.length (prevOptionsRef st))%Z
              && negb (jsstring_list_eqb (options p) (prevOptionsRef st))
              && negb (isSpinning st)).
    + destruct (JS.index (prevOptionsRef st) _) as [o|];
        [destruct (negb (indexOf (options p) o =? -1)%Z && _)|];
        apply Hquiet; reflexivity.
    + apply Hquiet. reflexivity.
Qed.

(** X11. During a spin the reorder effect leaves the angle alone and starts no
    animation, yet it takes the new order as seen: the run that follows the
    settle makes no adjustment either. *)
Theorem reorder_during_spin_is_dropped (p : Props) (st : State) (t : Timer) :
  isSpinning st = true ->
  (2 <= JS.length (options p))%Z ->
  rotation (fst (reorderEffect p st)) = rotation st
  /\ snd (reorderEffect p st) = []
  /\ prevOptionsRef (fst (reorderEffect p st)) = options p
  /\ snd (reorderEffect p (fst (settle t (fst (reorderEffect p st))))) = []
  /\ rotation (fst (reorderEffect p (fst (settle t (fst (reorderEffect p st))))))
     = t_totalRotation t.
Proof.
  intros Hspin Hn.
  assert (reorderEffect p st
          = (mkState (isSpinning st) (selectedIndex st) (rotation st)
               (prefersReducedMotion st) (options p) (rotation st)
               (lastHistoryRequestIdRef st), [])) as E.
  { unfold reorderEffect.
    destruct (Z.ltb_spec (JS.length (options p)) 2) as [Hlt|_]; [lia|].
    rewrite Hspin, andb_false_r. reflexivity. }
  rewrite E. cbn [fst snd rotation prevOptionsRef].
  repeat split.
  - unfold reorderEffect, settle. cbn [fst prevOptionsRef].
    destruct (JS.length (options p) <? 2)%Z; [reflexivity|].
    now rewrite Z.eqb_refl, (proj2 (jsstring_list_eqb_eq _ _) eq_refl).
  - unfold reorderEffect, settle. cbn [fst prevOptionsRef].
    destruct (JS.length (options p) <? 2)%Z; [reflexivity|].
    now rewrite Z.eqb_refl, (proj2 (jsstring_list_eqb_eq _ _) eq_refl).
Qed.

Lemma reorder_during_spin_is_dropped_witness :
  isSpinning Scenario.in_flight = true
  /\ (2 <= JS.length (options Scenario.reordered))%Z
  /\ rotation (fst (reorderEffect Scenario.reordered Scenario.in_flight))
     = rotation Scenario.in_flight
  /\ snd (reorderEffect Scenario.reordered Scenario.in_flight) = []
  /\ prevOptionsRef (fst (reorderEffect Scenario.reordered Scenario.in_flight))
     = options Scenario.reordered
  /\ snd (reorderEffect Scenario.reordered
            (fst (settle (mkTimer 3550 2205 Scenario.ABCD)
                    (fst (reorderEffect Scenario.reordered Scenario.in_flight)))))
     = []
  /\ rotation (fst (reorderEffect Scenario.reordered
                      (fst (settle (mkTimer 3550 2205 Scenario.ABCD)
                              (fst (reorderEffect Scenario.reordered
                                      Scenario.in_flight))))))
     = t_totalRotation (mkTimer 3550 2205 Scenario.ABCD).
Proof.
  assert (2 <= JS.length (options Scenario.reordered))%Z as H2
    by (vm_compute; discriminate).
  split; [reflexivity|]. split; [exact H2|].
  apply (reorder_during_spin_is_dropped Scenario.reordered Scenario.in_flight
           (mkTimer 3550 2205 Scenario.ABCD) eq_refl H2).
Defined.

Lemma roundtrip_only_for_two_witness :
  (0 <= 1 < 4)%Z
  /\ ((3 <= 4)%Z -> calculateIndexFromRotation 4 (targetRotationOf 4 1) <> 1%Z)
  /\ (4%Z = 2%Z -> calculateIndexFromRotation 4 (targetRotationOf 4 1) = 1%Z).
Proof.
  assert (0 <= 1 < 4)%Z as H by (split; [discriminate|reflexivity]).
  split; [exact H|].
  apply (roundtrip_only_for_two 4 1 H).
Defined.

End WheelBehaviour.

(** ** Drawing the wheel *)

Section Drawing.

Import Pred.

Lemma palette_length : JS.length COLORS = 5%Z.
Proof. reflexivity. Qed.

Ltac palette_cases k H :=
  let E := fresh "E" in
  assert (k = 0 \/ k = 1 \/ k = 2 \/ k = 3 \/ k = 4)%Z as E by lia;
  clear H; destruct E as [E|[E|[E|[E|E]]]]; subst k.

(** The palette has five different colours. *)
Lemma palette_injective (a b : Z) :
  (0 <= a < 5)%Z -> (0 <= b < 5)%Z ->
  JS.index COLORS a = JS.index COLORS b -> a = b.
Proof.
  intros Ha Hb. palette_cases a Ha; palette_cases b Hb;
    intros H; try reflexivity; vm_compute in H; discriminate H.
Qed.

Lemma in_palette_In (c : Color) :
  in_palette c -> exists s, c = Some s /\ In s COLORS.
Proof.
  intros (k & Hk & ->). palette_cases k Hk;
    (eexists; split; [reflexivity|]); simpl; tauto.
Qed.

(** What [getSegmentColor] chooses, given the palette positions [pi] and
    [fi] of the previous and of the first colour: a palette colour other
    than the previous one and, for the last slice, other than the first. *)
Lemma getSegmentColor_choice (index total : Z) (assigned : list Color) (pi fi : Z) :
  (0 <= index)%Z -> (0 <= pi < 5)%Z -> (0 <= fi < 5)%Z ->
  (if (JS.length assigned >? (if (index =? 0)%Z then total - 1 else index - 1))%Z
   then color_at assigned (if (index =? 0)%Z then total - 1 else index - 1)%Z
   else JS.index COLORS
          (Z.rem ((if (index =? 0)%Z then total - 1 else index - 1) + 0)
             (JS.length COLORS)))
  = JS.index COLORS pi ->
  (if (JS.length assigned >? 0)%Z then color_at assigned 0
   else JS.index COLORS (Z.rem (0 + 0) (JS.length COLORS)))
  = JS.index COLORS fi ->
  exists ri : Z,
    (0 <= ri < 5)%Z
    /\ getSegmentColor index total assigned 0 = JS.index COLORS ri
    /\ ri <> pi
    /\ ((index =? total - 1)%Z && (total >? 1)%Z = true -> ri <> fi).
Proof.
  intros Hindex Hpi Hfi Hprev Hfirst.
  unfold getSegmentColor. cbv zeta. rewrite Hprev, Hfirst.
  rewrite Z.add_0_r, palette_length.
  assert (0 <= Z.rem index 5 < 5)%Z as Hci by (apply Z.rem_bound_pos; lia).
  set (ci := Z.rem index 5) in *. clearbody ci. clear Hprev Hfirst.
  destruct ((index =? total - 1)%Z && (total >? 1)%Z);
    palette_cases ci Hci; palette_cases pi Hpi; palette_cases fi Hfi;
    first
      [ exists 0%Z; split; [lia|]; split; [reflexivity|];
        split; [lia|]; intros H; first [discriminate H|lia]
      | exists 1%Z; split; [lia|]; split; [reflexivity|];
        split; [lia|]; intros H; first [discriminate H|lia]
      | exists 2%Z; split; [lia|]; split; [reflexivity|];
        split; [lia|]; intros H; first [discriminate H|lia]
      | exists 3%Z; split; [lia|]; split; [reflexivity|];
        split; [lia|]; intros H; first [discriminate H|lia]
      | exists 4%Z; split; [lia|]; split; [reflexivity|];
        split; [lia|]; intros H; first [discriminate H|lia] ].
Qed.

Lemma color_at_palette (cs : list Color) (j : Z) :
  Forall in_palette cs -> (0 <= j < JS.length cs)%Z ->
  exists k : Z,
    (0 <= k < 5)%Z /\ color_at cs j = JS.index COLORS k
    /\ nth_error cs (Z.to_nat j) = Some (JS.index COLORS k).
Proof.
  intros Hall Hj.
  destruct (index_in_range cs j Hj) as (x & Hx & Hin).
  rewrite Forall_forall in Hall. destruct (Hall x Hin) as (k & Hk & ->).
  exists k. split; [exact Hk|]. unfold color_at. rewrite Hx.
  split; [reflexivity|]. unfold JS.index in Hx.
  destruct (Z.ltb_spec j 0); [lia|exact Hx].
Qed.

(** One turn of the colouring loop keeps the colours in the palette and the
    neighbours different, and closes the circle when it colours the last
    slice. *)
Lemma segmentColors_step (total : Z) (cs : list Color) :
  (2 <= total)%Z -> (JS.length cs < total)%Z ->
  Forall in_palette cs -> neighbours_differ cs ->
  in_palette (getSegmentColor (JS.length cs) total cs 0)
  /\ neighbours_differ (cs ++ [getSegmentColor (JS.length cs) total cs 0])
  /\ (JS.length cs = (total - 1)%Z ->
      forall a, nth_error cs 0 = Some a ->
                a <> getSegmentColor (JS.length cs) total cs 0).
Proof.
  intros Htotal Hlen Hall Hadj.
  destruct (Nat.eq_dec (List.length cs) 0) as [Ecs|Ecs].
  - apply length_zero_iff_nil in Ecs. subst cs.
    change (JS.length (@nil Color)) with 0%Z.
    assert (0 <= Z.rem (total - 1) 5 < 5)%Z as Hpi by (apply Z.rem_bound_pos; lia).
    destruct (getSegmentColor_choice 0 total [] (Z.rem (total - 1) 5) 0)
      as (ri & Hri & Ec & _); try lia.
    { change (JS.length (@nil Color)) with 0%Z. rewrite Z.eqb_refl.
      destruct (Z.gtb_spec 0 (total - 1)); [lia|].
      now rewrite Z.add_0_r, palette_length. }
    { reflexivity. }
    rewrite Ec. split; [exists ri; tauto|]. split.
    + intros [|j] a b Ha Hb; simpl in Hb; [discriminate|].
      destruct j; discriminate.
    + intros H. change (JS.length (@nil Color)) with 0%Z in *. lia.
  - assert (0 < JS.length cs)%Z as Hpos by (unfold JS.length; lia).
    destruct (color_at_palette cs (JS.length cs - 1) Hall) as (pi & Hpi & Epi & Npi);
      [lia|].
    destruct (color_at_palette cs 0 Hall) as (fi & Hfi & Efi & Nfi); [lia|].
    destruct (getSegmentColor_choice (JS.length cs) total cs pi fi)
      as (ri & Hri & Ec & Hne & Hlast); try lia.
    { destruct (Z.eqb_spec (JS.length cs) 0); [lia|].
      destruct (Z.gtb_spec (JS.length cs) (JS.length cs - 1)); [exact Epi|lia]. }
    { destruct (Z.gtb_spec (JS.length cs) 0); [exact Efi|lia]. }
    rewrite Ec. split; [exists ri; tauto|]. split.
    + intros j a b Ha Hb.
      destruct (Nat.lt_ge_cases (S j) (List.length cs)) as [Hin|Hout].
      * rewrite nth_error_app1 in Ha, Hb by lia. eapply Hadj; eauto.
      * assert (S j = List.length cs) as Ej.
        { apply Nat.le_antisymm; [|exact Hout].
          match type of Hb with
          | ?lhs = _ => assert (lhs <> None) as Hsome by (rewrite Hb; discriminate)
          end.
          apply nth_error_Some in Hsome. rewrite length_app in Hsome.
          simpl in Hsome. lia. }
        rewrite nth_error_app1 in Ha by lia.
        rewrite nth_error_app2, Ej, Nat.sub_diag in Hb by lia.
        simpl in Hb. injection Hb as <-.
        replace (Z.to_nat (JS.length cs - 1)) with j in Npi
          by (unfold JS.length; lia).
        rewrite Npi in Ha. injection Ha as <-.
        intros Heq. apply Hne. symmetry.
        now apply palette_injective.
    + intros Elast a Ha. change (Z.to_nat 0) with O in Nfi.
      rewrite Nfi in Ha. injection Ha as <-.
      intros Heq. apply Hlast.
      * rewrite Elast, Z.eqb_refl. simpl.
        destruct (Z.gtb_spec total 1); [reflexivity|lia].
      * symmetry. now apply palette_injective.
Qed.

Lemma segmentColors_loop_inv (total : Z) (fuel : nat) (cs : list Color) :
  (2 <= total)%Z ->
  (JS.length cs + Z.of_nat fuel)%Z = total ->
  Forall in_palette cs -> neighbours_differ cs ->
  (fuel = O -> forall a b,
      nth_error cs 0 = Some a ->
      nth_error cs (List.length cs - 1) = Some b -> a <> b) ->
  List.length (segmentColors_loop total fuel (JS.length cs) cs) = Z.to_nat total
  /\ Forall in_palette (segmentColors_loop total fuel (JS.length cs) cs)
  /\ neighbours_differ (segmentColors_loop total fuel (JS.length cs) cs)
  /\ (forall a b,
        nth_error (segmentColors_loop total fuel (JS.length cs) cs) 0 = Some a ->
        nth_error (segmentColors_loop total fuel (JS.length cs) cs)
          (Z.to_nat total - 1) = Some b ->
        a <> b).
Proof.
  intros Htotal. revert cs.
  induction fuel as [|fuel IH]; intros cs Hlen Hall Hadj Hcirc.
  - simpl. unfold JS.length in Hlen.
    replace (Z.to_nat total) with (List.length cs) by lia.
    repeat split; try assumption. now apply Hcirc.
  - simpl segmentColors_loop.
    destruct (segmentColors_step total cs Htotal) as (Hc & Hadj' & Hlast);
      [lia|exact Hall|exact Hadj|].
    set (c := getSegmentColor (JS.length cs) total cs 0) in *.
    assert (JS.length (cs ++ [c]) = (JS.length cs + 1)%Z) as Elen.
    { unfold JS.length. rewrite length_app. simpl. lia. }
    rewrite <- Elen. apply IH.
    + lia.
    + apply Forall_app. split; [exact Hall|]. constructor; [exact Hc|constructor].
    + exact Hadj'.
    + intros -> a b Ha Hb.
      assert (JS.length cs = (total - 1)%Z) as El by lia.
      assert (0 < List.length cs)%nat as Hpos by (unfold JS.length in El; lia).
      rewrite nth_error_app1 in Ha by lia.
      rewrite length_app in Hb. simpl List.length in Hb.
      rewrite nth_error_app2 in Hb by lia.
      replace (List.length cs + 1 - 1 - List.length cs)%nat with O in Hb by lia.
      simpl in Hb. injection Hb as <-.
      now apply Hlast.
Qed.

(** X12. The colours of the slices: one palette colour for each option, no two
    neighbouring slices alike, and the last slice unlike the first, with
    which it closes the circle. *)
Theorem segment_colors_differ (opts : list jsstring) :
  (2 <= JS.length opts)%Z ->
  List.length (segmentColors opts) = List.length opts
  /\ (forall c, In c (segmentColors opts) -> exists s, c = Some s /\ In s COLORS)
  /\ neighbours_differ (segmentColors opts)
  /\ (forall a b,
        nth_error (segmentColors opts) 0 = Some a ->
        nth_error (segmentColors opts) (List.length opts - 1) = Some b ->
        a <> b).
Proof.
  intros Hn. unfold segmentColors.
  destruct (segmentColors_loop_inv (JS.length opts) (List.length opts) [])
    as (Hlen & Hall & Hadj & Hcirc).
  - exact Hn.
  - reflexivity.
  - constructor.
  - intros [|j] a b H; discriminate.
  - intros E. unfold JS.length in Hn. rewrite E in Hn. simpl in Hn. lia.
  - change (JS.length (@nil Color)) with 0%Z in *.
    unfold JS.length in Hlen, Hcirc. rewrite Nat2Z.id in Hlen, Hcirc.
    split; [exact Hlen|]. split; [|split; [exact Hadj|exact Hcirc]].
    intros c Hin. rewrite Forall_forall in Hall. now apply in_palette_In, Hall.
Qed.

Lemma segment_colors_differ_witness :
  (2 <= JS.length Scenario.six)%Z
  /\ List.length (segmentColors Scenario.six) = List.length Scenario.six
  /\ (forall c, In c (segmentColors Scenario.six) ->
                exists s, c = Some s /\ In s COLORS)
  /\ neighbours_differ (segmentColors Scenario.six)
  /\ (forall a b,
        nth_error (segmentColors Scenario.six) 0 = Some a ->
        nth_error (segmentColors Scenario.six) (List.length Scenario.six - 1)
        = Some b ->
        a <> b).
Proof.
  assert (2 <= JS.length Scenario.six)%Z as H by (vm_compute; discriminate).
  split; [exact H|].
  apply (segment_colors_differ Scenario.six H).
Defined.

(** Six slices: the plain rotation through the palette would give the last
    slice the colour of the first; the loop shifts the colours instead. *)
Example segment_colors_of_six :
  segmentColors Scenario.six
  = map (JS.index COLORS) [1; 2; 3; 4; 0; 2]%Z.
Proof. reflexivity. Qed.

(** X13. The label drawn on a slice has at most [getMaxTextLength] code units,
    and this limit lies between 3 and 8: a label that fits is drawn as it
    is, a longer one is cut to one unit less than the limit and closed with
    an ellipsis. *)
Theorem wheel_label_fits (option : jsstring) (total : Z) :
  (3 <= getMaxTextLength total <= 8)%Z
  /\ (JS.length (truncateText option (getMaxTextLength total))
      <= getMaxTextLength total)%Z
  /\ ((JS.length option <= getMaxTextLength total)%Z ->
      truncateText option (getMaxTextLength total) = option)
  /\ ((getMaxTextLength total < JS.length option)%Z ->
      truncateText option (getMaxTextLength total)
      = firstn (Z.to_nat (getMaxTextLength total - 1)) option ++ [8230%N]
      /\ JS.length (truncateText option (getMaxTextLength total))
         = getMaxTextLength total).
Proof.
  assert (3 <= getMaxTextLength total <= 8)%Z as Hm.
  { unfold getMaxTextLength.
    destruct (total <=? 2)%Z; [lia|]. destruct (total <=? 4)%Z; [lia|].
    destruct (total <=? 6)%Z; lia. }
  set (m := getMaxTextLength total) in *. clearbody m.
  assert ((m < JS.length option)%Z ->
          truncateText option m = firstn (Z.to_nat (m - 1)) option ++ [8230%N]
          /\ JS.length (truncateText option m) = m) as Hcut.
  { intros Hlong. unfold truncateText, slice_to.
    destruct (Z.leb_spec (JS.length option) m); [lia|].
    destruct (Z.ltb_spec (m - 1) 0); [lia|].
    split; [reflexivity|].
    unfold JS.length in *. rewrite length_app, length_firstn. simpl. lia. }
  split; [exact Hm|]. split; [|split; [|exact Hcut]].
  - destruct (Z_le_gt_dec (JS.length option) m) as [Hfit|Hlong].
    + unfold truncateText. destruct (Z.leb_spec (JS.length option) m); lia.
    + destruct Hcut as [_ E]; lia.
  - intros Hfit. unfold truncateText.
    destruct (Z.leb_spec (JS.length option) m); [reflexivity|lia].
Qed.

(** X14. Whatever the draw, [getRandomShareText] finds a template, and the
    sentence it builds quotes the result between the two brackets and ends
    with a full stop. *)
Theorem share_text_quotes_result (u : Q) (result : jsstring) :
  unit_interval u ->
  exists opening : jsstring,
    getRandomShareText u result
    = Some (opening ++ [12304%N] ++ result ++ [12305; 12290]%N).
Proof.
  intros [Hlo Hhi]. unfold getRandomShareText, floor.
  change (JS.length CALM_SHARE_TEMPLATES) with 4%Z.
  assert (0 <= Qfloor (u * inject_Z 4) < 4)%Z as Hk.
  { apply Qfloor_range; change (inject_Z 4) with 4; lra. }
  remember (Qfloor (u * inject_Z 4)) as k eqn:Ek. clear Ek.
  assert (k = 0 \/ k = 1 \/ k = 2 \/ k = 3)%Z as E by lia.
  destruct E as [E|[E|[E|E]]]; subst k.
  - exists [32467; 26524; 65306]%N. reflexivity.
  - exists [20170; 22825; 30340; 36873; 25321; 26159; 65306]%N. reflexivity.
  - exists [36825; 27425; 23601; 36873; 65306]%N. reflexivity.
  - exists [25105; 24050; 32463; 20915; 23450; 36873; 65306]%N. reflexivity.
Qed.

Lemma share_text_quotes_result_witness :
  unit_interval (3 # 4)
  /\ exists opening : jsstring,
       getRandomShareText (3 # 4) (str "C")
       = Some (opening ++ [12304%N] ++ str "C" ++ [12305; 12290]%N).
Proof.
  assert (unit_interval (3 # 4)) as H.
  { split; [vm_compute; discriminate|reflexivity]. }
  split; [exact H|].
  apply (share_text_quotes_result (3 # 4) (str "C") H).
Defined.

End Drawing.

(** ** The owner of the list: undo, history, names, recent presets *)

Section Owner.

Import Pred.

(** X15. A change of the option list that is tracked can be undone: [undo] gives
    back the list and the undo stack as they were. *)
Theorem apply_then_undo (next : list jsstring) (st : App.State) :
  next <> [] -> next <> App.options st ->
  App.options (App.applyOptions next true st) = next
  /\ App.undoLastOptionsChange (App.applyOptions next true st) = st.
Proof.
  intros Hne Hdiff. unfold App.applyOptions.
  destruct (Z.eqb_spec (JS.length next) 0) as [E|_].
  { destruct next; [congruence|]. unfold JS.length in E. simpl in E. lia. }
  destruct (jsstring_list_eqb (App.options st) next) eqn:E.
  { apply jsstring_list_eqb_eq in E. congruence. }
  split; [reflexivity|].
  unfold App.undoLastOptionsChange. cbn [App.options App.optionsHistory].
  rewrite rev_app_distr. simpl. rewrite removelast_last.
  destruct st; reflexivity.
Qed.

Lemma apply_then_undo_witness :
  Scenario.CABD <> []
  /\ Scenario.CABD <> App.options (App.mkState Scenario.ABCD [])
  /\ App.options (App.applyOptions Scenario.CABD true (App.mkState Scenario.ABCD []))
     = Scenario.CABD
  /\ App.undoLastOptionsChange
       (App.applyOptions Scenario.CABD true (App.mkState Scenario.ABCD []))
     = App.mkState Scenario.ABCD [].
Proof.
  assert (Scenario.CABD <> []) as H1 by discriminate.
  assert (Scenario.CABD <> App.options (App.mkState Scenario.ABCD [])) as H2
    by (vm_compute; discriminate).
  split; [exact H1|]. split; [exact H2|].
  apply (apply_then_undo Scenario.CABD (App.mkState Scenario.ABCD []) H1 H2).
Defined.

(** What [onChange] does with a list that differs from the current one and
    is not a reorder of it: the list is taken and the old one is pushed on
    the undo stack. *)
Lemma onChange_tracked (next : list jsstring) (app : App.State) :
  next <> [] -> next <> App.options app ->
  (JS.length next <> JS.length (App.options app)
   \/ exists x, In x next /\ ~ In x (App.options app)) ->
  App.onChange next app
  = App.mkState next (App.optionsHistory app ++ [App.options app]).
Proof.
  intros Hne Hdiff Hnot. unfold App.onChange.
  assert ((JS.length next =? JS.length (App.options app))%Z
          && forallb (fun opt => includes (App.options app) opt) next
          && negb (jsstring_list_eqb next (App.options app)) = false) as E.
  { destruct Hnot as [Hlen|(x & Hin & Hout)].
    - destruct (Z.eqb_spec (JS.length next) (JS.length (App.options app)));
        [contradiction|reflexivity].
    - assert (forallb (fun opt => includes (App.options app) opt) next = false) as F.
      { destruct (forallb _ next) eqn:F; [|reflexivity].
        rewrite forallb_forall in F. specialize (F x Hin).
        apply includes_In in F. contradiction. }
      rewrite F. now rewrite andb_false_r. }
  rewrite E. unfold App.applyOptions.
  destruct (Z.eqb_spec (JS.length next) 0) as [E0|_].
  { destruct next; [congruence|]. unfold JS.length in E0. simpl in E0. lia. }
  destruct (jsstring_list_eqb (App.options app) next) eqn:Eeq.
  { apply jsstring_list_eqb_eq in Eeq. congruence. }
  reflexivity.
Qed.

Lemma undo_tracked (next : list jsstring) (app : App.State) :
  App.undoLastOptionsChange
    (App.mkState next (App.optionsHistory app ++ [App.options app]))
  = app.
Proof.
  unfold App.undoLastOptionsChange. cbn [App.optionsHistory].
  rewrite rev_app_distr. simpl. rewrite removelast_last.
  destruct app; reflexivity.
Qed.

Lemma onChange_same (app : App.State) :
  App.onChange (App.options app) app = app.
Proof.
  unfold App.onChange, App.applyOptions.
  destruct (JS.length (App.options app) =? 0)%Z; [reflexivity|].
  now rewrite (proj2 (jsstring_list_eqb_eq _ _) eq_refl).
Qed.

(** [onChange] with a list that is new and of another length, or that has
    an entry the current list lacks, can be undone in one step. *)
Lemma onChange_undoable (next : list jsstring) (app : App.State) :
  next <> [] ->
  (JS.length next <> JS.length (App.options app)
   \/ exists x, In x next /\ ~ In x (App.options app)) ->
  App.undoLastOptionsChange (App.onChange next app) = app.
Proof.
  intros Hne Hnot.
  assert (next <> App.options app) as Hdiff.
  { intros ->. destruct Hnot as [H|(x & Hin & Hout)]; [congruence|contradiction]. }
  rewrite onChange_tracked by assumption. apply undo_tracked.
Qed.

Lemma assign_unchanged (l : list jsstring) (index : Z) (v : jsstring) (i : Z) :
  (forall k, (i + Z.of_nat k)%Z = index -> nth_error l k = Some v \/ nth_error l k = None) ->
  OptionEditor.assign l index v i = l.
Proof.
  revert i. induction l as [|x l IH]; intros i H; [reflexivity|].
  simpl. destruct (Z.eqb_spec i index) as [E|E].
  - destruct (H O) as [H0|H0]; [lia| |discriminate].
    simpl in H0. injection H0 as ->.
    rewrite assign_outside by lia. reflexivity.
  - rewrite IH; [reflexivity|].
    intros k Hk. apply (H (S k)). lia.
Qed.

Lemma assign_has_value (l : list jsstring) (index : Z) (v : jsstring) (i : Z) :
  (i <= index < i + JS.length l)%Z -> In v (OptionEditor.assign l index v i).
Proof.
  unfold JS.length. revert i.
  induction l as [|x l IH]; intros i Hi; simpl List.length in Hi; [lia|].
  simpl. destruct (Z.eqb_spec i index); [now left|].
  right. apply IH. lia.
Qed.

(** X16. Every action of the editor either leaves the parent's list and undo
    stack alone, or makes one change that a single undo takes back. *)
Theorem editor_changes_are_undoable
  (options : list jsstring) (hist : list (list jsstring))
  (st : OptionEditor.State) (index : Z) :
  (OptionEditor.deliver (snd (OptionEditor.addOption options st))
     (App.mkState options hist) = App.mkState options hist
   \/ App.undoLastOptionsChange
        (OptionEditor.deliver (snd (OptionEditor.addOption options st))
           (App.mkState options hist)) = App.mkState options hist)
  /\ (OptionEditor.deliver (snd (OptionEditor.removeOption options index st))
        (App.mkState options hist) = App.mkState options hist
      \/ App.undoLastOptionsChange
           (OptionEditor.deliver (snd (OptionEditor.removeOption options index st))
              (App.mkState options hist)) = App.mkState options hist)
  /\ (OptionEditor.deliver (snd (OptionEditor.saveEdit options st))
        (App.mkState options hist) = App.mkState options hist
      \/ App.undoLastOptionsChange
           (OptionEditor.deliver (snd (OptionEditor.saveEdit options st))
              (App.mkState options hist)) = App.mkState options hist).
Proof.
  split; [|split].
  - unfold OptionEditor.addOption.
    destruct (OptionEditor.isProcessingAddRef st); [now left|].
    destruct (OptionEditor.isEmpty _); [now left|].
    destruct (JS.length options >=? 12)%Z; [now left|].
    destruct (includes options _); [now left|].
    right. cbn [snd OptionEditor.deliver fold_left].
    apply onChange_undoable; [now destruct options|].
    left. cbn [App.options]. unfold JS.length. rewrite length_app. simpl. lia.
  - unfold OptionEditor.removeOption. rewrite Z.gtb_ltb, Z.geb_leb.
    destruct (Z.ltb_spec 2 (JS.length options)) as [Hbig|_]; [|now left].
    destruct (Z.leb_spec 0 index) as [Hlo|_]; [|now left].
    destruct (Z.ltb_spec index (JS.length options)) as [Hhi|_]; [|now left].
    right. cbn [andb snd OptionEditor.deliver fold_left].
    assert (JS.length (OptionEditor.filter_other options index 0)
            = (JS.length options - 1)%Z) as Hlen
      by (apply filter_other_length; lia).
    apply onChange_undoable.
    + intros E. rewrite E in Hlen. change (JS.length (@nil jsstring)) with 0%Z in Hlen.
      lia.
    + left. cbn [App.options]. lia.
  - unfold OptionEditor.saveEdit.
    destruct (OptionEditor.editingIndex st) as [ei|]; [|now left].
    rewrite Z.geb_leb.
    destruct (negb (OptionEditor.isEmpty (trim (OptionEditor.editValue st))));
      [|now left].
    destruct (Z.leb_spec 0 ei) as [Hlo|_]; [|now left].
    destruct (Z.ltb_spec ei (JS.length options)) as [Hhi|_]; [|now left].
    cbn [andb].
    destruct (OptionEditor.some_other options _ ei 0) eqn:Eother; [now left|].
    cbn [snd OptionEditor.deliver fold_left].
    set (v := trim (OptionEditor.editValue st)) in *.
    destruct (list_eq_dec (list_eq_dec N.eq_dec)
                (OptionEditor.assign options ei v 0) options) as [Esame|Ediff].
    + left. rewrite Esame. apply (onChange_same (App.mkState options hist)).
    + right. apply onChange_undoable.
      * intros E. pose proof (assign_length options ei v 0) as Hl.
        rewrite E in Hl. unfold JS.length in Hhi. simpl in Hl. lia.
      * right. exists v. split; [apply assign_has_value; lia|].
        cbn [App.options]. intros Hin. apply Ediff.
        apply assign_unchanged. intros k Hk.
        apply In_nth_error in Hin. destruct Hin as [k' Hk'].
        destruct (Nat.eq_dec k' k) as [->|Hkk]; [now left|].
        rewrite (some_other_found options v ei 0 k' Hk') in Eother by lia.
        discriminate.
Qed.



Lemma In_firstn {A} (n : nat) (l : list A) (x : A) :
  In x (firstn n l) -> In x l.
Proof.
  revert l. induction n as [|n IH]; intros [|y l] H; simpl in *; try tauto.
  destruct H as [H|H]; [now left|right; now apply IH].
Qed.

Lemma NoDup_firstn_keep {A} (n : nat) (l : list A) :
  NoDup l -> NoDup (firstn n l).
Proof.
  revert l. induction n as [|n IH]; intros [|y l] H; simpl; try constructor.
  - inversion H; subst. intros Hin. apply In_firstn in Hin. contradiction.
  - inversion H; subst. now apply IH.
Qed.

Lemma pairs_firstn {A} (R : A -> A -> Prop) (n : nat) (l : list A) :
  ForallOrdPairs R l -> ForallOrdPairs R (firstn n l).
Proof.
  revert l. induction n as [|n IH]; intros l H; [constructor|].
  destruct H as [|a l Ha Hl]; simpl; constructor.
  - rewrite Forall_forall in *. intros x Hx. apply Ha. eapply In_firstn; eauto.
  - now apply IH.
Qed.

Lemma pairs_filter {A} (R : A -> A -> Prop) (f : A -> bool) (l : list A) :
  ForallOrdPairs R l -> ForallOrdPairs R (filter f l).
Proof.
  induction 1 as [|a l Ha Hl IH]; simpl; [constructor|].
  destruct (f a); [|exact IH]. constructor; [|exact IH].
  rewrite Forall_forall in *. intros x Hx. apply Ha.
  apply filter_In in Hx. tauto.
Qed.

Lemma jsstring_eqb_sym (a b : jsstring) : jsstring_eqb a b = jsstring_eqb b a.
Proof.
  unfold jsstring_eqb.
  destruct (list_eq_dec N.eq_dec a b), (list_eq_dec N.eq_dec b a); congruence.
Qed.

Lemma jsstring_list_eqb_sym (a b : list jsstring) :
  jsstring_list_eqb a b = jsstring_list_eqb b a.
Proof.
  unfold jsstring_list_eqb.
  destruct (list_eq_dec (list_eq_dec N.eq_dec) a b),
    (list_eq_dec (list_eq_dec N.eq_dec) b a); congruence.
Qed.

Lemma same_decision_sym (a b : App.HistoryItem) :
  App.same_decision a b = App.same_decision b a.
Proof.
  unfold App.same_decision.
  rewrite (jsstring_eqb_sym (App.h_result a)),
    (jsstring_list_eqb_sym (App.h_options a)).
  f_equal. f_equal. unfold App.option_eqb.
  destruct (App.h_sceneName a), (App.h_sceneName b); try reflexivity.
  apply jsstring_eqb_sym.
Qed.

(** X18. The decision history after a result: at most five records are kept;
    the new record comes first, and after it come the first four of the
    earlier records that do not record the same decision, in their earlier
    order.  If no two of the earlier records recorded the same decision,
    no two of the records kept do. *)
Theorem history_after_result
  (options : list jsstring) (names : App.CustomSceneNames) (now : Z)
  (result : jsstring) (index : Z) (prev : list App.HistoryItem) :
  (List.length (App.handleResult options names now result index prev) <= 5)%nat
  /\ App.handleResult options names now result index prev
     = App.mkItem options result index (App.getSceneName names options) now
       :: firstn 4
            (filter
               (fun h =>
                  negb (App.same_decision h
                          (App.mkItem options result index
                             (App.getSceneName names options) now)))
               prev)
  /\ (forall h,
        In h (App.handleResult options names now result index prev) ->
        h = App.mkItem options result index (App.getSceneName names options) now
        \/ (In h prev
            /\ App.same_decision h
                 (App.mkItem options result index
                    (App.getSceneName names options) now) = false))
  /\ (decisions_differ prev ->
      decisions_differ (App.handleResult options names now result index prev)).
Proof.
  unfold App.handleResult. cbv zeta.
  set (item := App.mkItem options result index (App.getSceneName names options) now).
  set (filtered := filter (fun h => negb (App.same_decision h item)) prev).
  assert (forall h, In h filtered -> In h prev /\ App.same_decision h item = false)
    as Hfiltered.
  { intros h Hh. apply filter_In in Hh. destruct Hh as [Hin Hneg].
    split; [exact Hin|]. now apply negb_true_iff. }
  split; [rewrite length_firstn; apply Nat.le_min_l|].
  split; [reflexivity|]. split.
  - intros h Hh. change (firstn 5 (item :: filtered))
      with (item :: firstn 4 filtered) in Hh.
    destruct Hh as [Hh|Hh]; [left; now symmetry|right].
    apply Hfiltered. eapply In_firstn; eauto.
  - intros Hprev. apply pairs_firstn. constructor.
    + rewrite Forall_forall. intros h Hh.
      rewrite same_decision_sym. now apply Hfiltered.
    + now apply pairs_filter.
Qed.

(** The same decision taken again replaces its earlier record. *)
Example same_decision_is_kept_once :
  App.handleResult Scenario.ABCD [] 2000 (str "C") 2 Scenario.one_decision
  = [App.mkItem Scenario.ABCD (str "C") 2 None 2000].
Proof. reflexivity. Qed.

(** [findIndex] returns [-1] when no entry passes the test, and otherwise the
    position of the first entry that does. *)
Lemma findIndex_from_spec {A} (f : A -> bool) (l : list A) (i : Z) :
  (0 <= i)%Z ->
  (App.findIndex_from f l i = (-1)%Z /\ forall x, In x l -> f x = false)
  \/ (exists (k : nat) (x : A),
        App.findIndex_from f l i = (i + Z.of_nat k)%Z
        /\ nth_error l k = Some x /\ f x = true).
Proof.
  revert i. induction l as [|y l IH]; intros i Hi; simpl.
  - left. split; [reflexivity|]. intros x [].
  - destruct (f y) eqn:E.
    + right. exists O, y. split; [lia|]. split; [reflexivity|exact E].
    + destruct (IH (i + 1)%Z) as [[E1 Hall]|(k & x & E1 & Hk & Hx)]; [lia| |].
      * left. split; [exact E1|]. intros x [<-|Hin]; [exact E|now apply Hall].
      * right. exists (S k), x. split; [lia|]. split; assumption.
Qed.

(** X19. The recent presets after a spin has started: the current list comes
    first, the others are earlier entries other than it, at most five are
    kept, none occurs twice, and starting a second spin with the same list
    changes nothing. *)
Theorem recent_presets_mru (presets : list (list jsstring)) (options : list jsstring) :
  NoDup presets ->
  (List.length (App.addRecentPreset presets options) <= 5)%nat
  /\ (exists rest,
        App.addRecentPreset presets options = options :: rest
        /\ forall x, In x rest -> In x presets /\ x <> options)
  /\ NoDup (App.addRecentPreset presets options)
  /\ App.addRecentPreset (App.addRecentPreset presets options) options
     = App.addRecentPreset presets options.
Proof.
  intros Hnd.
  assert (exists rest,
            App.addRecentPreset presets options = options :: rest
            /\ (forall x, In x rest -> In x presets /\ x <> options)
            /\ NoDup (options :: rest)
            /\ (List.length (options :: rest) <= 5)%nat) as (rest & E & Hrest & Hnd' & Hlen).
  { unfold App.addRecentPreset. cbv zeta.
    destruct (findIndex_from_spec (fun preset => jsstring_list_eqb preset options)
                presets 0) as [[E Hall]|(k & x & E & Hk & Hx)]; [lia| |].
    - rewrite E. cbn [Z.eqb negb].
      assert (forall x, In x presets -> x <> options) as Hne.
      { intros x Hin ->. specialize (Hall options Hin).
        rewrite (proj2 (jsstring_list_eqb_eq _ _) eq_refl) in Hall. discriminate. }
      exists (firstn 4 presets). split; [reflexivity|]. split; [|split].
      + intros x Hx. apply In_firstn in Hx. split; [exact Hx|now apply Hne].
      + apply (NoDup_firstn_keep 5 (options :: presets)).
        constructor; [|exact Hnd]. intros Hin. now apply (Hne options Hin).
      + apply (Nat.le_trans _ (List.length (firstn 5 (options :: presets))));
          [reflexivity|]. rewrite length_firstn. apply Nat.le_min_l.
    - apply jsstring_list_eqb_eq in Hx. subst x.
      rewrite E. rewrite Z.add_0_l.
      destruct (Z.eqb_spec (Z.of_nat k) (-1)) as [Hm|_]; [lia|]. cbn [negb].
      unfold JS.index. destruct (Z.ltb_spec (Z.of_nat k) 0) as [Hneg|_]; [lia|].
      rewrite Nat2Z.id, Hk.
      replace (Z.to_nat (Z.of_nat k + 1)) with (S k) by lia.
      assert (presets = firstn k presets ++ options :: skipn (S k) presets) as Esplit.
      { rewrite <- (skipn_nth_error presets k options Hk). symmetry.
        apply firstn_skipn. }
      assert (NoDup (options :: firstn k presets ++ skipn (S k) presets)) as Hnd2.
      { apply (Permutation_NoDup (l := presets)); [|exact Hnd].
        rewrite Esplit at 1. apply Permutation_sym, Permutation_middle. }
      exists (firstn 4 (firstn k presets ++ skipn (S k) presets)).
      split; [reflexivity|]. split; [|split].
      + intros x Hx. apply In_firstn in Hx.
        inversion Hnd2 as [|? ? Hnotin _]; subst. split.
        * rewrite Esplit. apply in_app_or in Hx. apply in_or_app.
          destruct Hx as [Hx|Hx]; [now left|right; now right].
        * intros ->. contradiction.
      + now apply (NoDup_firstn_keep 5 (options :: _)).
      + apply (Nat.le_trans _
                 (List.length (firstn 5 (options :: firstn k presets
                                                   ++ skipn (S k) presets))));
          [reflexivity|]. rewrite length_firstn. apply Nat.le_min_l. }
  rewrite E. split; [exact Hlen|]. split; [exists rest; split; [reflexivity|exact Hrest]|].
  split; [exact Hnd'|].
  assert (App.findIndex_from (fun preset => jsstring_list_eqb preset options)
            (options :: rest) 0 = 0%Z) as E0.
  { simpl. now rewrite (proj2 (jsstring_list_eqb_eq _ _) eq_refl). }
  unfold App.addRecentPreset. cbv zeta. rewrite E0.
  change (firstn 5 (options :: rest) = options :: rest).
  now apply firstn_all2.
Qed.

Lemma recent_presets_mru_witness :
  NoDup Scenario.recent
  /\ (List.length (App.addRecentPreset Scenario.recent Scenario.CABD) <= 5)%nat
  /\ (exists rest,
        App.addRecentPreset Scenario.recent Scenario.CABD = Scenario.CABD :: rest
        /\ forall x, In x rest -> In x Scenario.recent /\ x <> Scenario.CABD)
  /\ NoDup (App.addRecentPreset Scenario.recent Scenario.CABD)
  /\ App.addRecentPreset (App.addRecentPreset Scenario.recent Scenario.CABD)
       Scenario.CABD
     = App.addRecentPreset Scenario.recent Scenario.CABD.
Proof.
  assert (NoDup Scenario.recent) as H.
  { repeat constructor; simpl; intuition discriminate. }
  split; [exact H|].
  apply (recent_presets_mru Scenario.recent Scenario.CABD H).
Defined.

(** A list used before moves to the front. *)
Example recent_preset_moves_to_front :
  App.addRecentPreset Scenario.recent Scenario.CABD
  = [Scenario.CABD; Scenario.six; Scenario.ABCD].
Proof. reflexivity. Qed.

Lemma lookup_assign_same (names : App.CustomSceneNames)
  (key : list jsstring) (v : jsstring) :
  App.lookup (App.assign_name names key v) key = Some v.
Proof.
  induction names as [|[k w] names IH]; simpl.
  - now rewrite (proj2 (jsstring_list_eqb_eq _ _) eq_refl).
  - destruct (jsstring_list_eqb k key) eqn:E; simpl; rewrite E; [reflexivity|exact IH].
Qed.

Lemma lookup_assign_other (names : App.CustomSceneNames)
  (key key' : list jsstring) (v : jsstring) :
  key' <> key ->
  App.lookup (App.assign_name names key v) key' = App.lookup names key'.
Proof.
  intros Hne. induction names as [|[k w] names IH]; simpl.
  - destruct (jsstring_list_eqb key key') eqn:E; [|reflexivity].
    apply jsstring_list_eqb_eq in E. congruence.
  - destruct (jsstring_list_eqb k key) eqn:E; simpl.
    + apply jsstring_list_eqb_eq in E. subst k.
      destruct (jsstring_list_eqb key key') eqn:E'; [|reflexivity].
      apply jsstring_list_eqb_eq in E'. congruence.
    + destruct (jsstring_list_eqb k key'); [reflexivity|exact IH].
Qed.

Lemma lookup_delete_same (names : App.CustomSceneNames) (key : list jsstring) :
  App.lookup (App.delete_name names key) key = None.
Proof.
  induction names as [|[k w] names IH]; simpl; [reflexivity|].
  destruct (jsstring_list_eqb k key) eqn:E; simpl; [exact IH|].
  now rewrite E.
Qed.

Lemma lookup_delete_other (names : App.CustomSceneNames) (key key' : list jsstring) :
  key' <> key ->
  App.lookup (App.delete_name names key) key' = App.lookup names key'.
Proof.
  intros Hne. induction names as [|[k w] names IH]; simpl; [reflexivity|].
  destruct (jsstring_list_eqb k key) eqn:E; simpl.
  - apply jsstring_list_eqb_eq in E. subst k.
    destruct (jsstring_list_eqb key key') eqn:E'; [|exact IH].
    apply jsstring_list_eqb_eq in E'. congruence.
  - destruct (jsstring_list_eqb k key'); [reflexivity|exact IH].
Qed.

(** X20. A scene name that is not blank is kept without its surrounding white
    space: it becomes the name of its option list, the names of all other
    lists stay as they were, and every history item of that list shows it. *)
Theorem scene_name_saved (key : list jsstring) (name : jsstring)
  (names : App.CustomSceneNames) (history : list App.HistoryItem) :
  trim name <> [] ->
  App.getSceneName (fst (App.saveCustomSceneName key name names history)) key
  = Some (trim name)
  /\ (forall opts, opts <> key ->
        App.getSceneName (fst (App.saveCustomSceneName key name names history)) opts
        = App.getSceneName names opts)
  /\ List.length (snd (App.saveCustomSceneName key name names history))
     = List.length history
  /\ (forall h, In h (snd (App.saveCustomSceneName key name names history)) ->
        App.h_options h = key -> App.h_sceneName h = Some (trim name)).
Proof.
  intros Hname. unfold App.saveCustomSceneName.
  destruct (trim name) as [|c v] eqn:E; [congruence|].
  cbn [fst snd]. split; [|split; [|split]].
  - unfold App.getSceneName. now rewrite lookup_assign_same.
  - intros opts Hne. unfold App.getSceneName. now rewrite lookup_assign_other.
  - apply length_map.
  - intros h Hin Hkey. apply in_map_iff in Hin. destruct Hin as (h0 & Eh & _).
    destruct (jsstring_list_eqb (App.h_options h0) key) eqn:Ek.
    + subst h. reflexivity.
    + subst h. rewrite Hkey, (proj2 (jsstring_list_eqb_eq _ _) eq_refl) in Ek.
      discriminate.
Qed.

Lemma scene_name_saved_witness :
  trim (str " lunch ") <> []
  /\ App.getSceneName
       (fst (App.saveCustomSceneName Scenario.ABCD (str " lunch ") []
               Scenario.one_decision)) Scenario.ABCD
     = Some (trim (str " lunch "))
  /\ (forall opts, opts <> Scenario.ABCD ->
        App.getSceneName
          (fst (App.saveCustomSceneName Scenario.ABCD (str " lunch ") []
                  Scenario.one_decision)) opts
        = App.getSceneName [] opts)
  /\ List.length (snd (App.saveCustomSceneName Scenario.ABCD (str " lunch ") []
                         Scenario.one_decision))
     = List.length Scenario.one_decision
  /\ (forall h,
        In h (snd (App.saveCustomSceneName Scenario.ABCD (str " lunch ") []
                     Scenario.one_decision)) ->
        App.h_options h = Scenario.ABCD ->
        App.h_sceneName h = Some (trim (str " lunch "))).
Proof.
  assert (trim (str " lunch ") <> []) as H by (vm_compute; discriminate).
  split; [exact H|].
  apply (scene_name_saved Scenario.ABCD (str " lunch ") [] Scenario.one_decision H).
Defined.

(** X21. Deleting the scene name of an option list brings back the name of the
    built-in template with these options, if there is one; the names of all
    other lists stay as they were, and every history item of that list shows
    the template name again. *)
Theorem scene_name_deleted (key : list jsstring)
  (names : App.CustomSceneNames) (history : list App.HistoryItem) :
  App.getSceneName (fst (App.deleteCustomSceneName key names history)) key
  = App.presetName key
  /\ (forall opts, opts <> key ->
        App.getSceneName (fst (App.deleteCustomSceneName key names history)) opts
        = App.getSceneName names opts)
  /\ (forall h, In h (snd (App.deleteCustomSceneName key names history)) ->
        App.h_options h = key -> App.h_sceneName h = App.presetName key).
Proof.
  unfold App.deleteCustomSceneName. cbn [fst snd]. split; [|split].
  - unfold App.getSceneName. now rewrite lookup_delete_same.
  - intros opts Hne. unfold App.getSceneName. now rewrite lookup_delete_other.
  - intros h Hin Hkey. apply in_map_iff in Hin. destruct Hin as (h0 & Eh & _).
    destruct (jsstring_list_eqb (App.h_options h0) key) eqn:Ek.
    + subst h. cbn [App.h_sceneName App.with_sceneName].
      apply jsstring_list_eqb_eq in Ek. now rewrite Ek.
    + subst h. rewrite Hkey, (proj2 (jsstring_list_eqb_eq _ _) eq_refl) in Ek.
      discriminate.
Qed.

(** The built-in template "yes or no" gives its name to the list of the two
    answers, and a custom name takes precedence over it. *)
Example scene_name_of_yes_or_no :
  App.getSceneName [] [[26159]; [21542]]%N = Some [26159; 25110; 21542]%N
  /\ App.getSceneName [([[26159]; [21542]]%N, str "coin")] [[26159]; [21542]]%N
     = Some (str "coin").
Proof. split; reflexivity. Qed.

(** X22. The history is coherent with the names when every item carries the
    scene name that [getSceneName] gives for its option list.  Saving a scene
    name and deleting one keep it coherent.  Recording a result keeps it
    coherent when the names that [handleResult] reads, those of the render
    that started the spin ([names0]), give the spun list the scene name that
    the current names give it. *)
Theorem history_names_stay_coherent
  (names names0 : App.CustomSceneNames) (history : list App.HistoryItem)
  (key : list jsstring) (name : jsstring)
  (options : list jsstring) (now : Z) (result : jsstring) (index : Z) :
  names_coherent names history ->
  names_coherent (fst (App.saveCustomSceneName key name names history))
    (snd (App.saveCustomSceneName key name names history))
  /\ names_coherent (fst (App.deleteCustomSceneName key names history))
       (snd (App.deleteCustomSceneName key names history))
  /\ (App.getSceneName names0 options = App.getSceneName names options ->
      names_coherent names
        (App.handleResult options names0 now result index history)).
Proof.
  unfold names_coherent. intros Hco. split; [|split].
  - unfold App.saveCustomSceneName.
    destruct (trim name) as [|c v] eqn:E; [exact Hco|]. cbn [fst snd].
    rewrite Forall_forall in *. intros h Hin.
    apply in_map_iff in Hin. destruct Hin as (h0 & Eh & Hin0).
    destruct (jsstring_list_eqb (App.h_options h0) key) eqn:Ek; subst h.
    + apply jsstring_list_eqb_eq in Ek.
      cbn [App.h_sceneName App.h_options App.with_sceneName]. rewrite Ek.
      unfold App.getSceneName. now rewrite lookup_assign_same.
    + assert (App.h_options h0 <> key) as Hne.
      { intros Heq. rewrite Heq, (proj2 (jsstring_list_eqb_eq _ _) eq_refl) in Ek.
        discriminate. }
      rewrite (Hco h0 Hin0). unfold App.getSceneName.
      now rewrite lookup_assign_other.
  - unfold App.deleteCustomSceneName. cbn [fst snd].
    rewrite Forall_forall in *. intros h Hin.
    apply in_map_iff in Hin. destruct Hin as (h0 & Eh & Hin0).
    destruct (jsstring_list_eqb (App.h_options h0) key) eqn:Ek; subst h.
    + apply jsstring_list_eqb_eq in Ek.
      cbn [App.h_sceneName App.h_options App.with_sceneName]. rewrite Ek.
      unfold App.getSceneName. now rewrite lookup_delete_same.
    + assert (App.h_options h0 <> key) as Hne.
      { intros Heq. rewrite Heq, (proj2 (jsstring_list_eqb_eq _ _) eq_refl) in Ek.
        discriminate. }
      rewrite (Hco h0 Hin0). unfold App.getSceneName.
      now rewrite lookup_delete_other.
  - intros Hsame. unfold App.handleResult. cbv zeta.
    rewrite Forall_forall in *. intros h Hin. apply In_firstn in Hin.
    destruct Hin as [<-|Hin]; [exact Hsame|].
    apply filter_In in Hin. now apply Hco.
Qed.

Lemma history_names_stay_coherent_witness :
  names_coherent [] Scenario.one_decision
  /\ names_coherent
       (fst (App.saveCustomSceneName Scenario.ABCD (str " lunch ") []
               Scenario.one_decision))
       (snd (App.saveCustomSceneName Scenario.ABCD (str " lunch ") []
               Scenario.one_decision))
  /\ names_coherent
       (fst (App.deleteCustomSceneName Scenario.ABCD [] Scenario.one_decision))
       (snd (App.deleteCustomSceneName Scenario.ABCD [] Scenario.one_decision))
  /\ (App.getSceneName [] Scenario.CABD = App.getSceneName [] Scenario.CABD ->
      names_coherent []
        (App.handleResult Scenario.CABD [] 2000 (str "A") 1
           Scenario.one_decision)).
Proof.
  assert (names_coherent [] Scenario.one_decision) as H.
  { repeat constructor. }
  split; [exact H|].
  apply (history_names_stay_coherent [] [] Scenario.one_decision Scenario.ABCD
           (str " lunch ") Scenario.CABD 2000 (str "A") 1 H).
Defined.

(** A scene name saved while the wheel spins is missing from the record of
    that spin: the record is made with the names of the render that started
    the spin. *)
Example name_saved_during_spin_is_missed :
  names_coherent [] []
  /\ fst (App.saveCustomSceneName Scenario.CABD (str "lunch") [] [])
     = [(Scenario.CABD, str "lunch")]
  /\ App.handleResult Scenario.CABD [] 2000 (str "A") 1
       (snd (App.saveCustomSceneName Scenario.CABD (str "lunch") [] []))
     = [App.mkItem Scenario.CABD (str "A") 1 None 2000]
  /\ ~ names_coherent [(Scenario.CABD, str "lunch")]
         (App.handleResult Scenario.CABD [] 2000 (str "A") 1
            (snd (App.saveCustomSceneName Scenario.CABD (str "lunch") [] []))).
Proof.
  split; [constructor|]. split; [reflexivity|]. split; [reflexivity|].
  intros H. apply Forall_inv in H. vm_compute in H. discriminate.
Qed.

(** X23. What [formatRelativeTime] shows: "just now" below ten seconds (also for
    a time stamp in the future), then whole seconds from 10 to 59, whole
    minutes from 1 to 59, whole hours from 1 to 23, and whole days from 1
    on, each followed by its unit; each count is the elapsed time rounded
    down to that unit. *)
Theorem relative_time_text (now timestamp : Z) :
  ((now - timestamp < 10000)%Z
   /\ App.formatRelativeTime now timestamp = [21018; 21018]%N)
  \/ (exists sec : Z,
        (10 <= sec < 60)%Z
        /\ (1000 * sec <= now - timestamp < 1000 * (sec + 1))%Z
        /\ App.formatRelativeTime now timestamp
           = App.number_text sec ++ [32; 31186; 21069]%N)
  \/ (exists min : Z,
        (1 <= min < 60)%Z
        /\ (60000 * min <= now - timestamp < 60000 * (min + 1))%Z
        /\ App.formatRelativeTime now timestamp
           = App.number_text min ++ [32; 20998; 38047; 21069]%N)
  \/ (exists hour : Z,
        (1 <= hour < 24)%Z
        /\ (3600000 * hour <= now - timestamp < 3600000 * (hour + 1))%Z
        /\ App.formatRelativeTime now timestamp
           = App.number_text hour ++ [32; 23567; 26102; 21069]%N)
  \/ (exists day : Z,
        (1 <= day)%Z
        /\ (86400000 * day <= now - timestamp < 86400000 * (day + 1))%Z
        /\ App.formatRelativeTime now timestamp
           = App.number_text day ++ [32; 22825; 21069]%N).
Proof.
  unfold App.formatRelativeTime, App.relativeTime. cbv zeta.
  set (diff := (now - timestamp)%Z). clearbody diff.
  destruct (Z.ltb_spec (diff / 1000) 10).
  { left. split; [Z.div_mod_to_equations; lia|reflexivity]. }
  right. destruct (Z.ltb_spec (diff / 1000) 60).
  { left. exists (diff / 1000)%Z.
    repeat split; try reflexivity; Z.div_mod_to_equations; lia. }
  right. destruct (Z.ltb_spec (diff / 1000 / 60) 60).
  { left. exists (diff / 1000 / 60)%Z.
    repeat split; try reflexivity; Z.div_mod_to_equations; lia. }
  right. destruct (Z.ltb_spec (diff / 1000 / 60 / 60) 24).
  { left. exists (diff / 1000 / 60 / 60)%Z.
    repeat split; try reflexivity; Z.div_mod_to_equations; lia. }
  right. exists (diff / 1000 / 60 / 60 / 24)%Z.
  repeat split; try reflexivity; Z.div_mod_to_equations; lia.
Qed.

(** Seventy seconds read "1" followed by the unit of minutes. *)
Example relative_time_of_70_seconds :
  App.relativeTime 100000 30000 = App.MinutesAgo 1
  /\ App.formatRelativeTime 100000 30000 = [49; 32; 20998; 38047; 21069]%N.
Proof. split; reflexivity. Qed.

End Owner.

(** ** More on the option editor *)

Section EditorBehaviour.

Import OptionEditor.

Lemma index_in_range_inv {A} (l : list A) (i : Z) (x : A) :
  JS.index l i = Some x -> (0 <= i < JS.length l)%Z /\ In x l.
Proof.
  unfold JS.index, JS.length. destruct (Z.ltb_spec i 0) as [Hneg|Hpos];
    [discriminate|].
  intros Hx. split; [|eapply nth_error_In; eauto].
  assert (nth_error l (Z.to_nat i) <> None) as Hs by congruence.
  apply nth_error_Some in Hs. lia.
Qed.

(** [trimStart] removes white space from the front, and nothing else. *)
Lemma trimStart_spec (s : jsstring) :
  exists l,
    s = l ++ trimStart s
    /\ Forall (fun c => is_whitespace c = true) l
    /\ (forall c rest, trimStart s = c :: rest -> is_whitespace c = false).
Proof.
  induction s as [|c s (l & E & Hl & Hhead)]; simpl.
  - exists []. repeat split; [constructor|discriminate].
  - destruct (is_whitespace c) eqn:Ec.
    + exists (c :: l). split; [simpl; now rewrite <- E|].
      split; [now constructor|exact Hhead].
    + exists []. split; [reflexivity|]. split; [constructor|].
      intros c' rest H. injection H as <- _. exact Ec.
Qed.

Lemma trimStart_fixed (s : jsstring) :
  (forall c rest, s = c :: rest -> is_whitespace c = false) -> trimStart s = s.
Proof.
  destruct s as [|c s]; intros H; [reflexivity|].
  simpl. now rewrite (H c s eq_refl).
Qed.

(** [trim] removes white space from both ends, and nothing else. *)
Lemma trim_spec (s : jsstring) :
  exists l r,
    s = l ++ trim s ++ r
    /\ Forall (fun c => is_whitespace c = true) l
    /\ Forall (fun c => is_whitespace c = true) r
    /\ (forall c rest, trim s = c :: rest -> is_whitespace c = false)
    /\ (forall c init, trim s = init ++ [c] -> is_whitespace c = false).
Proof.
  destruct (trimStart_spec s) as (l & El & Hl & Hhead).
  destruct (trimStart_spec (rev (trimStart s))) as (r & Er & Hr & Hlast).
  assert (trimStart s = trim s ++ rev r) as Ea.
  { unfold trim. rewrite <- rev_app_distr, <- Er. symmetry. apply rev_involutive. }
  exists l, (rev r). split; [now rewrite <- Ea|]. split; [exact Hl|].
  split; [now apply Forall_rev|]. split.
  - intros c rest Ht. rewrite Ht in Ea. simpl in Ea. eapply Hhead; eauto.
  - intros c init Ht. unfold trim in Ht.
    apply (f_equal (@rev N)) in Ht. rewrite rev_involutive, rev_app_distr in Ht.
    simpl in Ht. eapply Hlast; eauto.
Qed.

Lemma trim_idempotent (s : jsstring) : trim (trim s) = trim s.
Proof.
  destruct (trim_spec s) as (_ & _ & _ & _ & _ & Hhead & Hlast).
  unfold trim at 1. rewrite (trimStart_fixed (trim s) Hhead).
  rewrite trimStart_fixed; [apply rev_involutive|].
  intros c rest E. apply (Hlast c (rev rest)).
  rewrite <- (rev_involutive (trim s)), E. reflexivity.
Qed.

(** X24. An accepted [addOption] appends one label at the end of the list: the
    typed text without the white space around it, which is not empty and
    neither starts nor ends with white space; the input is closed and
    emptied. *)
Theorem addOption_appends_trimmed (options : list jsstring) (st : State) :
  isProcessingAddRef st = false ->
  trim (newOption st) <> [] ->
  (JS.length options < 12)%Z ->
  ~ In (trim (newOption st)) options ->
  optionsAfter options (addOption options st) = options ++ [trim (newOption st)]
  /\ (exists l r,
        newOption st = l ++ trim (newOption st) ++ r
        /\ Forall (fun c => is_whitespace c = true) l
        /\ Forall (fun c => is_whitespace c = true) r)
  /\ (forall c rest, trim (newOption st) = c :: rest -> is_whitespace c = false)
  /\ (forall c init, trim (newOption st) = init ++ [c] -> is_whitespace c = false)
  /\ newOption (fst (addOption options st)) = []
  /\ isAddingNew (fst (addOption options st)) = false
  /\ isProcessingAddRef (fst (addOption options st)) = false.
Proof.
  intros Hidle Hname Hroom Hnew.
  destruct (trim_spec (newOption st)) as (l & r & E & Hl & Hr & Hhead & Hlast).
  unfold addOption. rewrite Hidle.
  destruct (trim (newOption st)) as [|c v] eqn:Et; [congruence|].
  cbn [isEmpty]. rewrite Z.geb_leb.
  destruct (Z.leb_spec 12 (JS.length options)); [lia|].
  destruct (includes options (c :: v)) eqn:Einc.
  { apply includes_In in Einc. contradiction. }
  split; [apply optionsAfter_changed; now destruct options|].
  split; [exists l, r; tauto|].
  repeat split; assumption.
Qed.

Lemma addOption_appends_trimmed_witness :
  isProcessingAddRef Scenario.editing = false
  /\ trim (newOption Scenario.editing) <> []
  /\ (JS.length Scenario.ABCD < 12)%Z
  /\ ~ In (trim (newOption Scenario.editing)) Scenario.ABCD
  /\ optionsAfter Scenario.ABCD (addOption Scenario.ABCD Scenario.editing)
     = Scenario.ABCD ++ [trim (newOption Scenario.editing)]
  /\ (exists l r,
        newOption Scenario.editing = l ++ trim (newOption Scenario.editing) ++ r
        /\ Forall (fun c => is_whitespace c = true) l
        /\ Forall (fun c => is_whitespace c = true) r)
  /\ (forall c rest,
        trim (newOption Scenario.editing) = c :: rest -> is_whitespace c = false)
  /\ (forall c init,
        trim (newOption Scenario.editing) = init ++ [c] -> is_whitespace c = false)
  /\ newOption (fst (addOption Scenario.ABCD Scenario.editing)) = []
  /\ isAddingNew (fst (addOption Scenario.ABCD Scenario.editing)) = false
  /\ isProcessingAddRef (fst (addOption Scenario.ABCD Scenario.editing)) = false.
Proof.
  assert (trim (newOption Scenario.editing) <> []) as H2
    by (vm_compute; discriminate).
  assert (JS.length Scenario.ABCD < 12)%Z as H3 by reflexivity.
  assert (~ In (trim (newOption Scenario.editing)) Scenario.ABCD) as H4.
  { vm_compute. intuition discriminate. }
  split; [reflexivity|]. split; [exact H2|]. split; [exact H3|].
  split; [exact H4|].
  apply (addOption_appends_trimmed Scenario.ABCD Scenario.editing eq_refl H2 H3 H4).
Defined.

Lemma filter_other_split (l : list jsstring) (index i : Z) (k : nat) :
  index = (i + Z.of_nat k)%Z ->
  filter_other l index i = firstn k l ++ skipn (S k) l.
Proof.
  revert i k. induction l as [|x l IH]; intros i k Hk.
  - now destruct k.
  - simpl filter_other. destruct (Z.eqb_spec i index) as [E|E].
    + assert (k = O) by lia. subst k. simpl.
      apply filter_other_outside. lia.
    + destruct k as [|k]; [lia|]. simpl. f_equal. apply IH. lia.
Qed.

(** X25. An accepted [removeOption] takes out the entry at the given index and
    nothing else: the entries before it and the entries after it stay, in
    their order. *)
Theorem removeOption_removes_one (options : list jsstring) (index : Z) (st : State) :
  (2 < JS.length options)%Z -> (0 <= index < JS.length options)%Z ->
  optionsAfter options (removeOption options index st)
  = firstn (Z.to_nat index) options ++ skipn (S (Z.to_nat index)) options
  /\ fst (removeOption options index st) = st.
Proof.
  intros Hbig [Hlo Hhi]. unfold removeOption. rewrite Z.gtb_ltb, Z.geb_leb.
  destruct (Z.ltb_spec 2 (JS.length options)); [|lia].
  destruct (Z.leb_spec 0 index); [|lia].
  destruct (Z.ltb_spec index (JS.length options)); [|lia].
  cbn [andb fst]. split; [|reflexivity].
  rewrite optionsAfter_changed.
  - apply filter_other_split. lia.
  - intros E. pose proof (filter_other_length options index 0 ltac:(lia)) as Hl.
    rewrite E in Hl. change (JS.length (@nil jsstring)) with 0%Z in Hl. lia.
Qed.

Lemma removeOption_removes_one_witness :
  (2 < JS.length Scenario.ABCD)%Z /\ (0 <= 1 < JS.length Scenario.ABCD)%Z
  /\ optionsAfter Scenario.ABCD (removeOption Scenario.ABCD 1 Scenario.editing)
     = firstn (Z.to_nat 1) Scenario.ABCD ++ skipn (S (Z.to_nat 1)) Scenario.ABCD
  /\ fst (removeOption Scenario.ABCD 1 Scenario.editing) = Scenario.editing.
Proof.
  assert (2 < JS.length Scenario.ABCD)%Z as H1 by reflexivity.
  assert (0 <= 1 < JS.length Scenario.ABCD)%Z as H2
    by (split; [discriminate|reflexivity]).
  split; [exact H1|]. split; [exact H2|].
  apply (removeOption_removes_one Scenario.ABCD 1 Scenario.editing H1 H2).
Defined.

Lemma some_other_absent (l : list jsstring) (v : jsstring) (index i : Z) :
  (forall k, (i + Z.of_nat k)%Z <> index -> nth_error l k <> Some v) ->
  some_other l v index i = false.
Proof.
  revert i. induction l as [|x l IH]; intros i H; [reflexivity|].
  simpl. rewrite IH.
  - rewrite orb_false_r. destruct (Z.eqb_spec i index) as [E|E].
    + apply andb_false_r.
    + destruct (jsstring_eqb x v) eqn:Ex; [|reflexivity].
      apply jsstring_eqb_eq in Ex. subst x.
      exfalso. apply (H O); [lia|reflexivity].
  - intros k Hk. apply (H (S k)). lia.
Qed.

Lemma assign_nth (l : list jsstring) (index : Z) (v : jsstring) (i : Z) (k : nat) :
  nth_error (assign l index v i) k
  = match nth_error l k with
    | Some x => Some (if (i + Z.of_nat k =? index)%Z then v else x)
    | None => None
    end.
Proof.
  revert i k. induction l as [|x l IH]; intros i [|k]; simpl; try reflexivity.
  - now rewrite Z.add_0_r.
  - rewrite IH. replace (i + 1 + Z.of_nat k)%Z with (i + Z.pos (Pos.of_succ_nat k))%Z
      by lia. reflexivity.
Qed.

(** X26. An accepted [saveEdit] renames the entry under edit to the typed text
    without its surrounding white space and leaves every other entry where
    it is; the editor leaves the edit mode. *)
Theorem saveEdit_renames_one (options : list jsstring) (st : State) (ei : Z) :
  editingIndex st = Some ei ->
  trim (editValue st) <> [] ->
  (0 <= ei < JS.length options)%Z ->
  (forall j, j <> ei -> JS.index options j <> Some (trim (editValue st))) ->
  (forall j,
     JS.index (optionsAfter options (saveEdit options st)) j
     = if (j =? ei)%Z then Some (trim (editValue st)) else JS.index options j)
  /\ editingIndex (fst (saveEdit options st)) = None
  /\ editValue (fst (saveEdit options st)) = [].
Proof.
  intros Hei Hname [Hlo Hhi] Hother. unfold saveEdit. rewrite Hei.
  destruct (trim (editValue st)) as [|c v] eqn:Et; [congruence|].
  cbn [isEmpty negb]. rewrite Z.geb_leb.
  destruct (Z.leb_spec 0 ei); [|lia].
  destruct (Z.ltb_spec ei (JS.length options)); [|lia].
  cbn [andb].
  rewrite some_other_absent.
  2:{ intros k Hk Hn. apply (Hother (Z.of_nat k)); [lia|].
      unfold JS.index. destruct (Z.ltb_spec (Z.of_nat k) 0); [lia|].
      now rewrite Nat2Z.id. }
  cbn [fst editingIndex editValue]. split; [|split; reflexivity].
  intros j. rewrite optionsAfter_changed.
  2:{ intros E. pose proof (assign_length options ei (c :: v) 0) as Hl.
      rewrite E in Hl. unfold JS.length in Hhi. simpl in Hl. lia. }
  unfold JS.index. destruct (Z.ltb_spec j 0) as [Hneg|Hpos].
  - destruct (Z.eqb_spec j ei); [lia|reflexivity].
  - rewrite assign_nth. rewrite Z.add_0_l, Z2Nat.id by lia.
    destruct (nth_error options (Z.to_nat j)) eqn:En.
    + destruct (Z.eqb_spec j ei); reflexivity.
    + destruct (Z.eqb_spec j ei) as [->|]; [|reflexivity].
      apply nth_error_None in En. unfold JS.length in Hhi. lia.
Qed.

Lemma saveEdit_renames_one_witness :
  editingIndex Scenario.editing = Some 2%Z
  /\ trim (editValue Scenario.editing) <> []
  /\ (0 <= 2 < JS.length Scenario.ABCD)%Z
  /\ (forall j, j <> 2%Z ->
        JS.index Scenario.ABCD j <> Some (trim (editValue Scenario.editing)))
  /\ (forall j,
        JS.index (optionsAfter Scenario.ABCD (saveEdit Scenario.ABCD Scenario.editing)) j
        = if (j =? 2)%Z then Some (trim (editValue Scenario.editing))
          else JS.index Scenario.ABCD j)
  /\ editingIndex (fst (saveEdit Scenario.ABCD Scenario.editing)) = None
  /\ editValue (fst (saveEdit Scenario.ABCD Scenario.editing)) = [].
Proof.
  assert (trim (editValue Scenario.editing) <> []) as H2
    by (vm_compute; discriminate).
  assert (0 <= 2 < JS.length Scenario.ABCD)%Z as H3
    by (split; [discriminate|reflexivity]).
  assert (forall j, j <> 2%Z ->
            JS.index Scenario.ABCD j <> Some (trim (editValue Scenario.editing)))
    as H4.
  { intros j _ H. destruct (index_in_range_inv Scenario.ABCD j _ H) as [_ Hin].
    vm_compute in Hin. intuition discriminate. }
  split; [reflexivity|]. split; [exact H2|]. split; [exact H3|].
  split; [exact H4|].
  apply (saveEdit_renames_one Scenario.ABCD Scenario.editing 2 eq_refl H2 H3 H4).
Defined.

(** X27. A template that has just been applied is not applied again: during the
    300 ms that follow no template is applied at all, and after them the
    same template is still refused, whatever happened to the list, until
    another template has been applied. *)
Theorem preset_is_not_applied_twice
  (preset other : list jsstring) (refs : PresetRefs) :
  isApplyingPresetRef refs = false ->
  lastAppliedPresetRef refs <> Some preset ->
  snd (applyPreset preset refs) = Some preset
  /\ snd (applyPreset other (fst (applyPreset preset refs))) = None
  /\ snd (applyPreset preset (presetTimer (fst (applyPreset preset refs)))) = None
  /\ (other <> preset ->
      snd (applyPreset other (presetTimer (fst (applyPreset preset refs))))
      = Some other
      /\ snd (applyPreset preset
                (presetTimer
                   (fst (applyPreset other
                           (presetTimer (fst (applyPreset preset refs)))))))
         = Some preset).
Proof.
  intros Hidle Hlast.
  assert (forall a b, a <> b -> jsstring_list_eqb a b = false) as Hneq.
  { intros a b Hab. destruct (jsstring_list_eqb a b) eqn:E; [|reflexivity].
    apply jsstring_list_eqb_eq in E. contradiction. }
  assert (applyPreset preset refs
          = (mkPresetRefs true (Some preset), Some preset)) as E1.
  { unfold applyPreset. rewrite Hidle.
    destruct (eqb_presetKey (lastAppliedPresetRef refs) preset) eqn:E; [|reflexivity].
    unfold eqb_presetKey in E.
    destruct (lastAppliedPresetRef refs) as [k|]; [|discriminate].
    apply jsstring_list_eqb_eq in E. congruence. }
  rewrite E1. cbn [fst snd]. split; [reflexivity|]. split; [reflexivity|].
  split.
  - unfold applyPreset, presetTimer, eqb_presetKey.
    cbn [isApplyingPresetRef lastAppliedPresetRef].
    now rewrite (proj2 (jsstring_list_eqb_eq _ _) eq_refl).
  - intros Hother. unfold applyPreset, presetTimer, eqb_presetKey.
    cbn [isApplyingPresetRef lastAppliedPresetRef fst snd].
    rewrite (Hneq preset other) by congruence.
    cbn [isApplyingPresetRef lastAppliedPresetRef fst snd].
    now rewrite (Hneq other preset Hother).
Qed.

Lemma preset_is_not_applied_twice_witness :
  isApplyingPresetRef (mkPresetRefs false None) = false
  /\ lastAppliedPresetRef (mkPresetRefs false None) <> Some Scenario.ABCD
  /\ snd (applyPreset Scenario.ABCD (mkPresetRefs false None)) = Some Scenario.ABCD
  /\ snd (applyPreset Scenario.six
            (fst (applyPreset Scenario.ABCD (mkPresetRefs false None)))) = None
  /\ snd (applyPreset Scenario.ABCD
            (presetTimer (fst (applyPreset Scenario.ABCD (mkPresetRefs false None)))))
     = None
  /\ (Scenario.six <> Scenario.ABCD ->
      snd (applyPreset Scenario.six
             (presetTimer (fst (applyPreset Scenario.ABCD (mkPresetRefs false None)))))
      = Some Scenario.six
      /\ snd (applyPreset Scenario.ABCD
                (presetTimer
                   (fst (applyPreset Scenario.six
                           (presetTimer
                              (fst (applyPreset Scenario.ABCD
                                      (mkPresetRefs false None))))))))
         = Some Scenario.ABCD).
Proof.
  assert (lastAppliedPresetRef (mkPresetRefs false None) <> Some Scenario.ABCD)
    as H2 by discriminate.
  split; [reflexivity|]. split; [exact H2|].
  apply (preset_is_not_applied_twice Scenario.ABCD Scenario.six
           (mkPresetRefs false None) eq_refl H2).
Defined.

End EditorBehaviour.

(** ** From a spin to its replay *)

Section Replay.

(** X28. The result of a settled spin, recorded by [handleResult] with the option
    list of the spin, is a history item whose index points at its result in
    its own option list; when that item is replayed on an idle wheel showing
    these options, the selected index is the recorded one, unclamped. *)
Theorem recorded_result_replays
  (p : Props) (st : State) (d : Draws)
  (names : App.CustomSceneNames) (now : Z) (prev : list App.HistoryItem)
  (st' : State) (requestId : Z) :
  isSpinning st = false ->
  (2 <= JS.length (options p))%Z ->
  isSpinning st' = false ->
  lastHistoryRequestIdRef st' <> Some requestId ->
  exists (st1 : State) (evs : list Event) (t : Timer)
         (label : jsstring) (idx : Z)
         (item : App.HistoryItem) (rest : list App.HistoryItem),
    spin p st d = (st1, evs, Some t)
    /\ snd (settle t st1)
       = [RotateSet (t_totalRotation t); ResultCalled (Some label) idx]
    /\ App.handleResult (options p) names now label idx prev = item :: rest
    /\ App.h_options item = options p
    /\ JS.index (App.h_options item) (App.h_index item) = Some (App.h_result item)
    /\ selectedIndex
         (fst (highlightEffect
                 (mkProps (App.h_options item) (onSpinStart p)
                    (Some (mkHighlight (App.h_options item) (App.h_index item)
                             requestId)))
                 st'))
       = Some (App.h_index item).
Proof.
  intros Hidle Hn Hidle' Hfresh.
  set (idx := calculateIndexFromRotation (JS.length (options p))
                (totalRotationOf p st d)).
  assert (0 <= idx < JS.length (options p))%Z as Hr
    by (apply calculateIndex_range; lia).
  destruct (index_in_range (options p) idx Hr) as (label & Hlabel & _).
  unfold spin. rewrite Hidle.
  destruct (Z.ltb_spec (JS.length (options p)) 2) as [Hlt|_]; [lia|].
  do 3 eexists. exists label, idx.
  exists (App.mkItem (options p) label idx (App.getSceneName names (options p)) now).
  eexists.
  split; [reflexivity|].
  split; [unfold settle; cbn [t_totalRotation t_options]; fold idx;
          now rewrite Hlabel|].
  split; [reflexivity|]. split; [reflexivity|].
  split; [exact Hlabel|].
  cbn [App.h_options App.h_index].
  destruct (highlightEffect_idle
              (mkProps (options p) (onSpinStart p)
                 (Some (mkHighlight (options p) idx requestId)))
              st' (mkHighlight (options p) idx requestId))
    as (Hsel & _); try reflexivity; try assumption.
  rewrite Hsel. cbn [hh_index options]. f_equal. lia.
Qed.

Lemma recorded_result_replays_witness :
  isSpinning (init Scenario.wheel) = false
  /\ (2 <= JS.length (options Scenario.wheel))%Z
  /\ isSpinning Scenario.resting_on_C = false
  /\ lastHistoryRequestIdRef Scenario.resting_on_C <> Some 7%Z
  /\ exists (st1 : State) (evs : list Event) (t : Timer)
            (label : jsstring) (idx : Z)
            (item : App.HistoryItem) (rest : list App.HistoryItem),
       spin Scenario.wheel (init Scenario.wheel) Scenario.half_turn
       = (st1, evs, Some t)
       /\ snd (settle t st1)
          = [RotateSet (t_totalRotation t); ResultCalled (Some label) idx]
       /\ App.handleResult (options Scenario.wheel) [] 2000 label idx
            Scenario.one_decision = item :: rest
       /\ App.h_options item = options Scenario.wheel
       /\ JS.index (App.h_options item) (App.h_index item)
          = Some (App.h_result item)
       /\ selectedIndex
            (fst (highlightEffect
                    (mkProps (App.h_options item) (onSpinStart Scenario.wheel)
                       (Some (mkHighlight (App.h_options item) (App.h_index item)
                                7)))
                    Scenario.resting_on_C))
          = Some (App.h_index item).
Proof.
  assert (2 <= JS.length (options Scenario.wheel))%Z as H2
    by (vm_compute; discriminate).
  assert (lastHistoryRequestIdRef Scenario.resting_on_C <> Some 7%Z) as H4
    by discriminate.
  split; [reflexivity|]. split; [exact H2|]. split; [reflexivity|].
  split; [exact H4|].
  apply (recorded_result_replays Scenario.wheel (init Scenario.wheel)
           Scenario.half_turn [] 2000 Scenario.one_decision
           Scenario.resting_on_C 7 eq_refl H2 eq_refl H4).
Defined.

End Replay.
